(** * A read-only record service: validation, loading, lookup and error responses

    Shallow embedding of [main.js]: the GUID validator, the data loader, the
    two route handlers, the error-handling middleware, the 404 handler and
    the middleware chain that ties them together.

    Strings are byte strings; JavaScript values are the values [JSON.parse]
    can return plus [undefined]; effects (file reads, logger calls) are
    recorded in a trace threaded through a small exception monad. *)

From Stdlib Require Import ZArith Ascii DecimalString.
From Stdlib Require DecimalPos DecimalZ.
From stdpp Require Import base tactics option list strings.

Local Open Scope Z_scope.
Set Warnings "-register-all".

(** ** JavaScript values *)

Inductive value : Type :=
  | VUndefined
  | VNull
  | VBool (b : bool)
  | VNumber (n : Z)
  | VString (s : string)
  | VArray (items : list value)
  | VObject (props : list (string * value)).

(** [typeof v === 'string'] *)
Definition typeof_string (v : value) : bool :=
  match v with VString _ => true | _ => false end.

(** [Array.isArray(v)] *)
Definition is_array (v : value) : bool :=
  match v with VArray _ => true | _ => false end.

(** ToBoolean, as used by [!x] and [x || y]. *)
Definition truthy (v : value) : bool :=
  match v with
  | VUndefined | VNull => false
  | VBool b => b
  | VNumber n => negb (n =? 0)
  | VString s => negb (String.eqb s EmptyString)
  | VArray _ | VObject _ => true
  end.

(** Own-property lookup in a plain object, by key. *)
Fixpoint assoc (k : string) (props : list (string * value)) : value :=
  match props with
  | [] => VUndefined
  | (k', v) :: rest => if String.eqb k k' then v else assoc k rest
  end.

(** ** Characters and the regular-expression fragment of [GUID_REGEX] *)

Definition code (c : ascii) : N := N_of_ascii c.

Definition between (lo hi c : ascii) : bool :=
  ((code lo <=? code c) && (code c <=? code hi))%N.

(** Canonicalize of the [i] flag: upper-casing, which on a byte only moves
    [a]..[z]. *)
Definition to_upper (c : ascii) : ascii :=
  if between "a" "z" c then ascii_of_N (code c - 32) else c.

Definition canonicalize (ignoreCase : bool) (c : ascii) : ascii :=
  if ignoreCase then to_upper c else c.

(** Lower-casing of a byte: only [A]..[Z] move. *)
Definition to_lower (c : ascii) : ascii :=
  if between "A" "Z" c then ascii_of_N (code c + 32) else c.

Fixpoint map_string (f : ascii -> ascii) (s : string) : string :=
  match s with
  | EmptyString => EmptyString
  | String c rest => String (f c) (map_string f rest)
  end.

(** The string with its letters [a]..[z] in upper case, with its letters
    [A]..[Z] in lower case. *)
Definition ascii_upper_case (s : string) : string := map_string to_upper s.
Definition ascii_lower_case (s : string) : string := map_string to_lower s.

(** No [%] in the string: nothing for [decodeURIComponent] to decode. *)
Fixpoint percent_free (s : string) : bool :=
  match s with
  | EmptyString => true
  | String c rest => negb (Ascii.eqb c "%") && percent_free rest
  end.

(** The characters [lo], ..., [hi] of a class range [lo-hi]. *)
Definition range_chars (lo hi : ascii) : list ascii :=
  map (fun k => ascii_of_N (code lo + N.of_nat k))
      (seq 0 (N.to_nat (N.succ (code hi) - code lo))).

(** A pattern item: a bracket class repeated exactly [n] times, or a
    literal character. *)
Inductive re_item : Type :=
  | ReClass (ranges : list (ascii * ascii)) (n : nat)
  | ReChar (c : ascii).

(** A pattern anchored at both ends ([^...$]) with its [i] flag. *)
Record regexp : Type := {
  re_items : list re_item;
  re_ignoreCase : bool;
}.

(** A character matches a class when some member of the class has the same
    canonical form. *)
Definition class_matches (i : bool) (ranges : list (ascii * ascii)) (c : ascii) : bool :=
  existsb (fun r =>
    existsb (fun a => Ascii.eqb (canonicalize i a) (canonicalize i c))
            (range_chars (fst r) (snd r))) ranges.

Definition char_matches (i : bool) (a c : ascii) : bool :=
  Ascii.eqb (canonicalize i a) (canonicalize i c).

(** Consume exactly [n] characters of the class; the rest of the input. *)
Fixpoint take_class (i : bool) (ranges : list (ascii * ascii)) (n : nat) (s : string)
  : option string :=
  match n with
  | O => Some s
  | S n' =>
      match s with
      | String c s' => if class_matches i ranges c then take_class i ranges n' s' else None
      | EmptyString => None
      end
  end.

Fixpoint match_items (i : bool) (items : list re_item) (s : string) : bool :=
  match items with
  | [] => match s with EmptyString => true | _ => false end
  | ReChar a :: rest =>
      match s with
      | String c s' => char_matches i a c && match_items i rest s'
      | EmptyString => false
      end
  | ReClass ranges n :: rest =>
      match take_class i ranges n s with
      | Some s' => match_items i rest s'
      | None => false
      end
  end.

(** [re.test(s)] *)
Definition regexp_test (re : regexp) (s : string) : bool :=
  match_items (re_ignoreCase re) (re_items re) s.

Definition hex_class : list (ascii * ascii) :=
  [("0", "9"); ("a", "f")]%char.

(** [/^[0-9a-f]{8}-[0-9a-f]{4}-[0-9a-f]{4}-[0-9a-f]{4}-[0-9a-f]{12}$/i] *)
Definition GUID_REGEX : regexp := {|
  re_items := [ReClass hex_class 8; ReChar "-"; ReClass hex_class 4; ReChar "-";
               ReClass hex_class 4; ReChar "-"; ReClass hex_class 4; ReChar "-";
               ReClass hex_class 12]%char;
  re_ignoreCase := true;
|}.

(** [isValidGuid(guid)] *)
Definition isValidGuid (guid : value) : bool :=
  typeof_string guid &&
  match guid with
  | VString s => regexp_test GUID_REGEX s
  | _ => false
  end.


(** ** String conversions *)

Definition string_of_Z (n : Z) : string := NilZero.string_of_int (Z.to_int n).
Arguments string_of_Z : simpl never.

Fixpoint join (sep : string) (l : list string) : string :=
  match l with
  | [] => EmptyString
  | [s] => s
  | s :: rest => s +:+ sep +:+ join sep rest
  end.

(** ToString, as applied by a template literal [`${v}`]. *)
Fixpoint ToString (v : value) : string :=
  match v with
  | VUndefined => "undefined"
  | VNull => "null"
  | VBool true => "true"
  | VBool false => "false"
  | VNumber n => string_of_Z n
  | VString s => s
  | VArray items =>
      join "," (map (fun x => match x with
                              | VUndefined | VNull => EmptyString
                              | _ => ToString x
                              end) items)
  | VObject _ => "[object Object]"
  end.

(** [a === b]. Arrays and objects compare by identity; the operands met
    here come from different allocations (the parsed file and the request),
    so two of them are never the same object. *)
Definition strict_equal (a b : value) : bool :=
  match a, b with
  | VUndefined, VUndefined => true
  | VNull, VNull => true
  | VBool x, VBool y => Bool.eqb x y
  | VNumber x, VNumber y => x =? y
  | VString x, VString y => String.eqb x y
  | _, _ => false
  end.

(** ** Errors *)

Record error : Type := {
  err_name : string;
  err_message : string;
  err_statusCode : option Z;     (* [None]: the property is absent *)
}.

Module HTTP_STATUS.
Definition OK : Z := 200.
Definition BAD_REQUEST : Z := 400.
Definition NOT_FOUND : Z := 404.
Definition INTERNAL_SERVER_ERROR : Z := 500.
End HTTP_STATUS.

Definition Error (message : string) : error :=
  {| err_name := "Error"; err_message := message; err_statusCode := None |}.

Definition TypeError (message : string) : error :=
  {| err_name := "TypeError"; err_message := message; err_statusCode := None |}.

Definition SyntaxError (message : string) : error :=
  {| err_name := "SyntaxError"; err_message := message; err_statusCode := None |}.

Definition NotFoundError (message : string) : error :=
  {| err_name := "NotFoundError"; err_message := message;
     err_statusCode := Some HTTP_STATUS.NOT_FOUND |}.

Definition ValidationError (message : string) : error :=
  {| err_name := "ValidationError"; err_message := message;
     err_statusCode := Some HTTP_STATUS.BAD_REQUEST |}.

(** ** Effects: a trace of file reads and logger calls, and exceptions *)

Inductive level : Type := LvError | LvWarn | LvInfo.

Inductive event : Type :=
  | ReadFile (path : string)
  | Log (lvl : level) (message : string).

(** The files read along a trace, in order. *)
Fixpoint reads (t : list event) : list string :=
  match t with
  | [] => []
  | ReadFile p :: rest => p :: reads rest
  | Log _ _ :: rest => reads rest
  end.

Definition M (A : Type) : Type := list event -> (error + A) * list event.

Definition ret {A} (a : A) : M A := fun t => (inr a, t).

Definition throw {A} (e : error) : M A := fun t => (inl e, t).

Definition bind {A B} (m : M A) (k : A -> M B) : M B :=
  fun t => match m t with
           | (inr a, t') => k a t'
           | (inl e, t') => (inl e, t')
           end.

Definition try_catch {A} (m : M A) (handler : error -> M A) : M A :=
  fun t => match m t with
           | (inl e, t') => handler e t'
           | r => r
           end.

Definition emit (ev : event) : M unit := fun t => (inr tt, t ++ [ev]).

Definition lift {A} (r : error + A) : M A := fun t => (r, t).

Notation "x <- m ;; k" := (bind m (fun x => k))
  (at level 100, m at next level, right associativity).
Notation "m ;; k" := (bind m (fun _ => k))
  (at level 100, right associativity).

Definition logger_error (message : string) : M unit := emit (Log LvError message).
Definition logger_warn (message : string) : M unit := emit (Log LvWarn message).
Definition logger_info (message : string) : M unit := emit (Log LvInfo message).

(** ** The platform: environment, file system, [JSON.parse] and
    [decodeURIComponent] *)

Record Runtime : Type := {
  env_DATA_FILE_PATH : option string;        (* [process.env.DATA_FILE_PATH] *)
  path_resolve : string -> string;           (* [path.resolve] *)
  fs_readFile : string -> error + string;    (* [fs.promises.readFile(p, 'utf8')] *)
  JSON_parse : string -> error + value;      (* [JSON.parse] *)
  decodeURIComponent : string -> option string;
                                             (* [None]: it throws [URIError] *)
  decodeURIComponent_plain :                 (* only escapes are decoded *)
    forall s, percent_free s = true -> decodeURIComponent s = Some s;
}.

Definition DEFAULT_DATA_FILE : string := "data.json".

(** What varies from one request to the next without being part of it. *)
Record Oracle : Type := {
  Date_now : Z;                        (* [Date.now()] *)
  Math_random_36 : string;             (* [Math.random().toString(36)] *)
  Date_toISOString : string;           (* [new Date().toISOString()] *)
}.

Record request : Type := {
  req_method : string;
  req_url : string;
  req_id : string;
  req_params : list (string * string);
}.

Record response : Type := {
  res_statusCode : Z;
  res_headers : list (string * string);
  res_body : value;
}.

(** How a handler leaves: [res.status(c).json(body)] or [next(err)]. *)
Inductive outcome : Type :=
  | Sent (statusCode : Z) (body : value)
  | Next (err : error).

(** [req.params[name]] *)
Fixpoint param (name : string) (params : list (string * string)) : value :=
  match params with
  | [] => VUndefined
  | (k, v) :: rest => if String.eqb name k then VString v else param name rest
  end.

(** ** The program *)

Section Program.

Variable rt : Runtime.

(** [process.env.DATA_FILE_PATH || DEFAULT_DATA_FILE] *)
Definition DATA_FILE_PATH : string :=
  match env_DATA_FILE_PATH rt with
  | Some p => if truthy (VString p) then p else DEFAULT_DATA_FILE
  | None => DEFAULT_DATA_FILE
  end.

Definition readFile (filePath : string) : M string :=
  emit (ReadFile filePath) ;; lift (fs_readFile rt filePath).

(** [loadData()] *)
Definition loadData : M value :=
  try_catch
    (let filePath := path_resolve rt DATA_FILE_PATH in
     fileContent <- readFile filePath ;;
     lift (JSON_parse rt fileContent))
    (fun error =>
       logger_error ("Failed to load data file: " +:+ err_message error) ;;
       throw (Error ("Failed to load data file: " +:+ err_message error))).

(** [item.guid]: no prototype carries a [guid] property, so only an
    object's own property can answer; reading it off [null] or
    [undefined] throws. *)
Definition get_guid (item : value) : M value :=
  match item with
  | VObject props => ret (assoc "guid" props)
  | VNull => throw (TypeError "Cannot read properties of null (reading 'guid')")
  | VUndefined =>
      throw (TypeError "Cannot read properties of undefined (reading 'guid')")
  | _ => ret VUndefined
  end.

(** The loop of [Array.prototype.find]. *)
Fixpoint find_loop (predicate : value -> M bool) (items : list value) : M value :=
  match items with
  | [] => ret VUndefined
  | item :: rest =>
      hit <- predicate item ;;
      if hit then ret item else find_loop predicate rest
  end.

(** [data.find(predicate)]: only an array has a callable [find]. *)
Definition data_find (data : value) (predicate : value -> M bool) : M value :=
  match data with
  | VArray items => find_loop predicate items
  | VNull => throw (TypeError "Cannot read properties of null (reading 'find')")
  | VUndefined =>
      throw (TypeError "Cannot read properties of undefined (reading 'find')")
  | _ => throw (TypeError "data.find is not a function")
  end.

(** [getAllData(req, res, next)] *)
Definition getAllData (req : request) : M outcome :=
  try_catch
    (data <- loadData ;;
     ret (Sent HTTP_STATUS.OK data))
    (fun error => ret (Next error)).

(** [getItemByGuid(req, res, next)] *)
Definition getItemByGuid (req : request) : M outcome :=
  try_catch
    (let guid := param "guid" (req_params req) in
     (if negb (isValidGuid guid)
      then throw (ValidationError ("Invalid GUID format: " +:+ ToString guid))
      else ret tt) ;;
     data <- loadData ;;
     item <- data_find data
               (fun item => g <- get_guid item ;; ret (strict_equal g guid)) ;;
     (if negb (truthy item)
      then throw (NotFoundError ("Item not found: " +:+ ToString guid))
      else ret tt) ;;
     ret (Sent HTTP_STATUS.OK item))
    (fun error => ret (Next error)).

(** The handler of [app.get('/health', ...)]. *)
Definition health (o : Oracle) (req : request) : M outcome :=
  ret (Sent HTTP_STATUS.OK
         (VObject [("status", VString "ok");
                   ("timestamp", VString (Date_toISOString o))])).

(** The body every error response carries. *)
Definition error_body (message : string) (statusCode : Z) (requestId : string) : value :=
  VObject [("error",
            VObject [("message", VString message);
                     ("statusCode", VNumber statusCode);
                     ("requestId", VString requestId)])].

(** The error-handling middleware, [app.use((err, req, res, next) => ...)]. *)
Definition errorHandler (err : error) (req : request) : M outcome :=
  let statusCode :=
    match err_statusCode err with
    | Some c => if truthy (VNumber c) then c else HTTP_STATUS.INTERNAL_SERVER_ERROR
    | None => HTTP_STATUS.INTERNAL_SERVER_ERROR
    end in
  let message :=
    if truthy (VString (err_message err)) then err_message err
    else "Internal server error" in
  (if 500 <=? statusCode
   then logger_error ("Error [" +:+ req_id req +:+ "]: " +:+ message)
   else logger_warn ("Error [" +:+ req_id req +:+ "]: " +:+ message)) ;;
  ret (Sent statusCode (error_body message statusCode (req_id req))).

(** The last middleware, reached when no route matched. *)
Definition notFoundHandler (req : request) : M outcome :=
  ret (Sent HTTP_STATUS.NOT_FOUND
         (error_body ("Route not found: " +:+ req_method req +:+ " " +:+ req_url req)
                     HTTP_STATUS.NOT_FOUND (req_id req))).

End Program.

(** ** Routing

    The route table is the one of [main.js], matched the way the
    framework matches it under the settings that [main.js] leaves at
    their defaults: the query string is no part of the path, one trailing
    slash does not count, a literal segment matches in any letter case,
    and a [:name] segment takes one non-empty segment of the path, which
    the handler receives percent-decoded.  A parameter that cannot be
    decoded is an error of status 400 for the error handler, and no later
    route is tried.  A route is asked for the method only once its path
    has matched, and a route registered for [GET] answers [HEAD] too. *)

(** The part of the URL before the query string. *)
Fixpoint pathname (url : string) : string :=
  match url with
  | EmptyString => EmptyString
  | String c rest => if Ascii.eqb c "?" then EmptyString else String c (pathname rest)
  end.

(** Split at every ["/"]. *)
Fixpoint split_slash (s : string) : list string :=
  match s with
  | EmptyString => [EmptyString]
  | String c rest =>
      if Ascii.eqb c "/" then EmptyString :: split_slash rest
      else match split_slash rest with
           | seg :: segs => String c seg :: segs
           | [] => [String c EmptyString]
           end
  end.

(** The string without its last character when that is a ["/"]. *)
Fixpoint drop_trailing_slash (s : string) : string :=
  match s with
  | EmptyString => EmptyString
  | String c EmptyString => if Ascii.eqb c "/" then EmptyString else s
  | String c rest => String c (drop_trailing_slash rest)
  end.

(** The segments after the leading slash, one trailing slash left out;
    ["/"] has none. *)
Definition segments (path : string) : option (list string) :=
  match path with
  | String c rest =>
      if Ascii.eqb c "/" then
        match rest with
        | EmptyString => Some []
        | _ => Some (split_slash (drop_trailing_slash rest))
        end
      else None
  | EmptyString => None
  end.

(** The segments of a path against those of a pattern: a literal segment
    in any letter case, a [:name] segment against one non-empty segment,
    bound as it is written in the path. *)
Fixpoint match_segments (pattern path : list string) : option (list (string * string)) :=
  match pattern, path with
  | [], [] => Some []
  | String ":" name :: pattern', seg :: path' =>
      if String.eqb seg EmptyString then None
      else match match_segments pattern' path' with
           | Some params => Some ((name, seg) :: params)
           | None => None
           end
  | lit :: pattern', seg :: path' =>
      if String.eqb (ascii_upper_case lit) (ascii_upper_case seg)
      then match_segments pattern' path' else None
  | _, _ => None
  end.

Definition match_path (pattern path : string) : option (list (string * string)) :=
  match segments pattern, segments path with
  | Some pat, Some segs => match_segments pat segs
  | _, _ => None
  end.

(** What the framework throws for a parameter [val] that
    [decodeURIComponent] refuses: the [URIError] with its message
    replaced and the status set. *)
Definition decode_failure (val : string) : error :=
  {| err_name := "URIError";
     err_message := "Failed to decode param '" +:+ val +:+ "'";
     err_statusCode := Some HTTP_STATUS.BAD_REQUEST |}.

(** A route answers the methods it was registered for, whatever their
    letter case, and [HEAD] when it was registered for [GET]. *)
Definition handles_method (registered method : string) : bool :=
  let name := ascii_lower_case method in
  String.eqb (ascii_lower_case registered) name
  || (String.eqb name "head" && String.eqb (ascii_lower_case registered) "get").

Record route : Type := {
  route_method : string;
  route_path : string;
  route_handler : request -> M outcome;
}.

(** A path against one route. *)
Inductive layer_match : Type :=
  | NoMatch
  | Match (params : list (string * string))
  | MatchError (err : error).

(** A request against the route table. *)
Inductive routing : Type :=
  | Routed (r : route) (params : list (string * string))
  | NotRouted
  | ParamError (err : error).

Section App.

Variable rt : Runtime.
Variable o : Oracle.

(** The parameters decoded, in the order of the path. *)
Fixpoint decode_params (params : list (string * string))
  : error + list (string * string) :=
  match params with
  | [] => inr []
  | (name, val) :: rest =>
      match decodeURIComponent rt val with
      | Some v =>
          match decode_params rest with
          | inr decoded => inr ((name, v) :: decoded)
          | inl err => inl err
          end
      | None => inl (decode_failure val)
      end
  end.

Definition match_layer (pattern path : string) : layer_match :=
  match match_path pattern path with
  | None => NoMatch
  | Some params =>
      match decode_params params with
      | inr decoded => Match decoded
      | inl err => MatchError err
      end
  end.

(** [app.get('/health', ...)], [app.get('/', getAllData)],
    [app.get('/:guid', getItemByGuid)], in registration order. *)
Definition routes : list route :=
  [ {| route_method := "GET"; route_path := "/health"; route_handler := health o |};
    {| route_method := "GET"; route_path := "/"; route_handler := getAllData rt |};
    {| route_method := "GET"; route_path := "/:guid";
       route_handler := getItemByGuid rt |} ].

(** The first route, in order, whose path matches and which answers the
    method; a parameter that cannot be decoded ends the search. *)
Fixpoint dispatch (table : list route) (method path : string) : routing :=
  match table with
  | [] => NotRouted
  | r :: rest =>
      match match_layer (route_path r) path with
      | NoMatch => dispatch rest method path
      | MatchError err => ParamError err
      | Match params =>
          if handles_method (route_method r) method then Routed r params
          else dispatch rest method path
      end
  end.

(** [`${Date.now()}-${Math.random().toString(36).substr(2, 9)}`] *)
Definition new_request_id : string :=
  string_of_Z (Date_now o) +:+ "-" +:+ String.substring 2 9 (Math_random_36 o).

(** One request through the middleware chain: request id and header,
    the access log registered for the end of the response, the routes,
    the error handler for whatever a route passed to [next] and for a
    parameter that cannot be decoded, the 404 handler when no route
    matched. *)
Definition app (method url : string) : M response :=
  let id := new_request_id in
  let headers := [("X-Request-ID", id)] in
  let mkreq params :=
    {| req_method := method; req_url := url; req_id := id; req_params := params |} in
  out <- match dispatch routes method (pathname url) with
         | Routed r params =>
             out <- route_handler r (mkreq params) ;;
             match out with
             | Sent _ _ => ret out
             | Next err => errorHandler err (mkreq params)
             end
         | ParamError err => errorHandler err (mkreq [])
         | NotRouted => notFoundHandler (mkreq [])
         end ;;
  match out with
  | Sent statusCode body =>
      logger_info (string_of_Z statusCode +:+ " " +:+ method +:+ " " +:+ url
                   +:+ " [" +:+ id +:+ "]") ;;
      ret {| res_statusCode := statusCode; res_headers := headers; res_body := body |}
  | Next err => throw err
  end.

End App.

(** ** A reference platform

    The theorems below hold for every [Runtime].  The examples need one:
    a parser for the fragment of JSON without fractions, exponents and
    [\u] escapes (object keys are kept in the order of the text), a
    decoder of percent escapes, and a file system holding a single file. *)

Module Json.

Definition DQ : ascii := "034"%char.
Definition BSL : ascii := "092"%char.

Definition is_ws (c : ascii) : bool :=
  match code c with
  | 32%N | 9%N | 10%N | 13%N => true
  | _ => false
  end.

Definition is_digit (c : ascii) : bool := between "0" "9" c.

Fixpoint skip_ws (s : string) : string :=
  match s with
  | String c rest => if is_ws c then skip_ws rest else s
  | EmptyString => s
  end.

Definition unescape (c : ascii) : option ascii :=
  match code c with
  | 34%N => Some DQ
  | 92%N => Some BSL
  | 47%N => Some "/"%char
  | 98%N => Some "008"%char
  | 102%N => Some "012"%char
  | 110%N => Some "010"%char
  | 114%N => Some "013"%char
  | 116%N => Some "009"%char
  | _ => None
  end.

Definition cons_char (c : ascii) (r : option (string * string)) : option (string * string) :=
  match r with
  | Some (body, rest) => Some (String c body, rest)
  | None => None
  end.

(** The characters of a string literal after its opening quote. *)
Fixpoint string_body (s : string) : option (string * string) :=
  match s with
  | EmptyString => None
  | String c rest =>
      if Ascii.eqb c DQ then Some (EmptyString, rest)
      else if Ascii.eqb c BSL then
        match rest with
        | String e rest' =>
            match unescape e with
            | Some c' => cons_char c' (string_body rest')
            | None => None
            end
        | EmptyString => None
        end
      else if (code c <? 32)%N then None
      else cons_char c (string_body rest)
  end.

Fixpoint digits (acc : Z) (s : string) : Z * string :=
  match s with
  | String c rest =>
      if is_digit c then digits (10 * acc + Z.of_N (code c - 48)) rest else (acc, s)
  | EmptyString => (acc, s)
  end.

Definition ends_number (s : string) : bool :=
  match s with
  | String c _ => negb (Ascii.eqb c "." || Ascii.eqb c "e" || Ascii.eqb c "E" || is_digit c)
  | EmptyString => true
  end.

(** [0] or a non-zero digit followed by digits. *)
Definition natural (s : string) : option (Z * string) :=
  match s with
  | String c rest =>
      if Ascii.eqb c "0" then (if ends_number rest then Some (0, rest) else None)
      else if is_digit c then
        let '(n, rest') := digits 0 s in
        if ends_number rest' then Some (n, rest') else None
      else None
  | EmptyString => None
  end.

Definition number (s : string) : option (Z * string) :=
  match s with
  | String "-" rest =>
      match natural rest with
      | Some (n, rest') => Some (- n, rest')
      | None => None
      end
  | _ => natural s
  end.

(** Defining a property: a later duplicate replaces the value in place. *)
Fixpoint define (k : string) (v : value) (props : list (string * value))
  : list (string * value) :=
  match props with
  | [] => [(k, v)]
  | (k', v') :: rest =>
      if String.eqb k k' then (k, v) :: rest else (k', v') :: define k v rest
  end.

Definition object_of (members : list (string * value)) : value :=
  VObject (fold_left (fun props kv => define (fst kv) (snd kv) props) members []).

Fixpoint parse_value (fuel : nat) (s : string) : option (value * string) :=
  match fuel with
  | O => None
  | S fuel' =>
      match skip_ws s with
      | String "n" (String "u" (String "l" (String "l" rest))) => Some (VNull, rest)
      | String "t" (String "r" (String "u" (String "e" rest))) => Some (VBool true, rest)
      | String "f" (String "a" (String "l" (String "s" (String "e" rest)))) =>
          Some (VBool false, rest)
      | String "[" rest =>
          match skip_ws rest with
          | String "]" rest' => Some (VArray [], rest')
          | _ =>
              match parse_elements fuel' rest with
              | Some (items, rest') => Some (VArray items, rest')
              | None => None
              end
          end
      | String "{" rest =>
          match skip_ws rest with
          | String "}" rest' => Some (VObject [], rest')
          | _ =>
              match parse_members fuel' rest with
              | Some (members, rest') => Some (object_of members, rest')
              | None => None
              end
          end
      | String c rest =>
          if Ascii.eqb c DQ then
            match string_body rest with
            | Some (body, rest') => Some (VString body, rest')
            | None => None
            end
          else
            match number (String c rest) with
            | Some (n, rest') => Some (VNumber n, rest')
            | None => None
            end
      | EmptyString => None
      end
  end
with parse_elements (fuel : nat) (s : string) : option (list value * string) :=
  match fuel with
  | O => None
  | S fuel' =>
      match parse_value fuel' s with
      | Some (v, rest) =>
          match skip_ws rest with
          | String "," rest' =>
              match parse_elements fuel' rest' with
              | Some (vs, rest'') => Some (v :: vs, rest'')
              | None => None
              end
          | String "]" rest' => Some ([v], rest')
          | _ => None
          end
      | None => None
      end
  end
with parse_members (fuel : nat) (s : string) : option (list (string * value) * string) :=
  match fuel with
  | O => None
  | S fuel' =>
      match skip_ws s with
      | String q rest =>
          if Ascii.eqb q DQ then
            match string_body rest with
            | Some (key, rest1) =>
                match skip_ws rest1 with
                | String ":" rest2 =>
                    match parse_value fuel' rest2 with
                    | Some (v, rest3) =>
                        match skip_ws rest3 with
                        | String "," rest4 =>
                            match parse_members fuel' rest4 with
                            | Some (ms, rest5) => Some ((key, v) :: ms, rest5)
                            | None => None
                            end
                        | String "}" rest4 => Some ([(key, v)], rest4)
                        | _ => None
                        end
                    | None => None
                    end
                | _ => None
                end
            | None => None
            end
          else None
      | EmptyString => None
      end
  end.

(** [JSON.parse(text)] on the fragment. *)
Definition parse (text : string) : error + value :=
  match parse_value (2 * S (String.length text)) text with
  | Some (v, rest) =>
      match skip_ws rest with
      | EmptyString => inr v
      | _ => inl (SyntaxError "Unexpected non-whitespace character after JSON")
      end
  | None => inl (SyntaxError "Unexpected token in JSON")
  end.

(** A JSON string literal, for texts written inside this file. *)
Definition q (s : string) : string := String DQ s +:+ String DQ EmptyString.

End Json.

(** [decodeURIComponent] for the reference platform: every [%XX] escape
    becomes its byte, the bytes of a run of escapes must be well-formed
    UTF-8, and any other [%] is refused. *)
Module Uri.

Definition hex_value (c : ascii) : option N :=
  if between "0" "9" c then Some (code c - 48)%N
  else if between "a" "f" c then Some (code c - 87)%N
  else if between "A" "F" c then Some (code c - 55)%N
  else None.

(** The byte of the two hexadecimal digits after a [%]. *)
Definition escape (s : string) : option (N * string) :=
  match s with
  | String h (String l rest) =>
      match hex_value h, hex_value l with
      | Some a, Some b => Some (16 * a + b, rest)%N
      | _, _ => None
      end
  | _ => None
  end.

(** [n] further escapes. *)
Fixpoint escapes (n : nat) (s : string) : option (list N * string) :=
  match n with
  | O => Some ([], s)
  | S n' =>
      match s with
      | String c s' =>
          if Ascii.eqb c "%" then
            match escape s' with
            | Some (b, rest) =>
                match escapes n' rest with
                | Some (bs, rest') => Some (b :: bs, rest')
                | None => None
                end
            | None => None
            end
          else None
      | EmptyString => None
      end
  end.

(** How many bytes follow the first byte of a character. *)
Definition continuation_count (b : N) : option nat :=
  if (b <? 128)%N then Some 0%nat
  else if (b <? 194)%N then None
  else if (b <? 224)%N then Some 1%nat
  else if (b <? 240)%N then Some 2%nat
  else if (b <? 245)%N then Some 3%nat
  else None.

Definition within (lo hi b : N) : bool := ((lo <=? b) && (b <=? hi))%N.

(** The bytes after the first byte [b] complete a character: no overlong
    form, no surrogate, nothing above U+10FFFF. *)
Definition well_formed_tail (b : N) (tail : list N) : bool :=
  match tail with
  | [] => true
  | c1 :: rest =>
      (if (b =? 224)%N then within 160 191 c1
       else if (b =? 237)%N then within 128 159 c1
       else if (b =? 240)%N then within 144 191 c1
       else if (b =? 244)%N then within 128 143 c1
       else within 128 191 c1)
      && forallb (within 128 191) rest
  end.

Definition chars (bytes : list N) : string :=
  fold_right (fun b s => String (ascii_of_N b) s) EmptyString bytes.

Fixpoint decode_loop (fuel : nat) (s : string) : option string :=
  match s with
  | EmptyString => Some EmptyString
  | String c rest =>
      match fuel with
      | O => None
      | S fuel' =>
          if Ascii.eqb c "%" then
            match escape rest with
            | Some (b, rest1) =>
                match continuation_count b with
                | Some n =>
                    match escapes n rest1 with
                    | Some (bs, rest2) =>
                        if well_formed_tail b bs then
                          match decode_loop fuel' rest2 with
                          | Some decoded => Some (chars (b :: bs) +:+ decoded)
                          | None => None
                          end
                        else None
                    | None => None
                    end
                | None => None
                end
            | None => None
            end
          else
            match decode_loop fuel' rest with
            | Some decoded => Some (String c decoded)
            | None => None
            end
      end
  end.

Definition decode (s : string) : option string := decode_loop (String.length s) s.

Definition decode_percent_free (s : string) :
  percent_free s = true -> decode s = Some s.
Proof.
  unfold decode. induction s as [|c s IH]; [reflexivity|].
  cbn [percent_free String.length decode_loop].
  destruct (Ascii.eqb c "%"); [discriminate|].
  cbn [negb andb]. intros H. rewrite (IH H). reflexivity.
Qed.

End Uri.

(** A platform whose working directory holds [data.json] with the given
    text, or holds no file at all. *)
Definition platform (file : option string) : Runtime := {|
  env_DATA_FILE_PATH := None;
  path_resolve := fun p => "/srv/app/" +:+ p;
  fs_readFile := fun p =>
    match file with
    | Some text =>
        if String.eqb p "/srv/app/data.json" then inr text
        else inl (Error ("ENOENT: no such file or directory, open '" +:+ p +:+ "'"))
    | None => inl (Error ("ENOENT: no such file or directory, open '" +:+ p +:+ "'"))
    end;
  JSON_parse := Json.parse;
  decodeURIComponent := Uri.decode;
  decodeURIComponent_plain := Uri.decode_percent_free;
|}.

Definition sample_text : string :=
  "[{" +:+ Json.q "guid" +:+ ": " +:+ Json.q "05024756-765e-41a9-89d7-1407436d9a58" +:+ ", "
       +:+ Json.q "school" +:+ ": " +:+ Json.q "Iowa State University" +:+ "}, {"
       +:+ Json.q "guid" +:+ ": " +:+ Json.q "0a1b2c3d-0000-4000-8000-00000000abcd" +:+ ", "
       +:+ Json.q "school" +:+ ": " +:+ Json.q "Other" +:+ "}]".

Definition sample_oracle : Oracle := {|
  Date_now := 1700000000000;
  Math_random_36 := "0.4fzyo82mvyr";
  Date_toISOString := "2023-11-14T22:13:20.000Z";
|}.

(** ** The layout of an identifier, in the words of the specification *)

Definition is_hex_digit (c : ascii) : bool :=
  between "0" "9" c || between "a" "f" c || between "A" "F" c.

Fixpoint all_hex (s : string) : bool :=
  match s with
  | EmptyString => true
  | String c rest => is_hex_digit c && all_hex rest
  end.

(** A group of exactly [n] hexadecimal digits. *)
Definition hex_group (n : nat) (g : string) : Prop :=
  String.length g = n /\ all_hex g = true.

(** Five groups of 8, 4, 4, 4 and 12 hexadecimal digits, separated by
    hyphens. *)
Definition uuid_layout (s : string) : Prop :=
  exists a b c d e,
    s = a +:+ "-" +:+ b +:+ "-" +:+ c +:+ "-" +:+ d +:+ "-" +:+ e /\
    hex_group 8 a /\ hex_group 4 b /\ hex_group 4 c /\ hex_group 4 d /\
    hex_group 12 e.

(** ** Records and lookups, in the words of the specification *)

(** [null] and [undefined], the values a property cannot be read from. *)
Definition nullish (v : value) : bool :=
  match v with VUndefined | VNull => true | _ => false end.

(** The [guid] field of a record; [undefined] when the record has none. *)
Definition guid_of (item : value) : value :=
  match item with
  | VObject props => assoc "guid" props
  | _ => VUndefined
  end.

(** The record carries the identifier: its [guid] field is that very string. *)
Definition carries (g : string) (item : value) : Prop :=
  guid_of item = VString g.

#[global] Instance carries_dec g item : Decision (carries g item).
Proof.
  unfold carries. destruct (guid_of item) as [| | | |s| |]; try (right; discriminate).
  destruct (decide (s = g)) as [->|Hne]; [left; reflexivity | right; congruence].
Defined.

(** A record: a JSON object, given by its fields. *)
Abbreviation record := (list (string * value)) (only parsing).

(** A dataset, an ordered sequence of records, as the array it is loaded as. *)
Definition dataset (records : list record) : value :=
  VArray (map VObject records).

(** The scan for the identifier comes to an item a property cannot be read
    from: a [null] placed before the first record that carries it. *)
Fixpoint reaches_null (g : string) (items : list value) : bool :=
  match items with
  | [] => false
  | item :: rest =>
      if nullish item then true
      else if bool_decide (carries g item) then false
      else reaches_null g rest
  end.

(** The failure [loadData] raises for a failed read or parse. *)
Definition load_failure (cause : error) : error :=
  Error ("Failed to load data file: " +:+ err_message cause).

(** What the lookup answers, by the record found. *)
Definition lookup_outcome (g : string) (found : option value) : outcome :=
  match found with
  | Some item => Sent HTTP_STATUS.OK item
  | None => Next (NotFoundError ("Item not found: " +:+ g))
  end.

(** ** The answer to an error, in the words of the specification *)

(** The explicit status code of the error if present, else 500. *)
Definition status_of (err : error) : Z :=
  default HTTP_STATUS.INTERNAL_SERVER_ERROR (err_statusCode err).

(** The message of the error if it has one, else the default message. *)
Definition message_of (err : error) : string :=
  if decide (err_message err = EmptyString) then "Internal server error"
  else err_message err.

(** Logged at error level from 500 on, at warn level below. *)
Definition level_of (statusCode : Z) : level :=
  if 500 <=? statusCode then LvError else LvWarn.

(** The status and body a request is answered with, by how its handler
    left. *)
Definition answer (id : string) (out : outcome) : Z * value :=
  match out with
  | Sent statusCode body => (statusCode, body)
  | Next err => (status_of err, error_body (message_of err) (status_of err) id)
  end.

(** An error a handler of this program can pass on: it has a message, and
    a status code, if any, that is not zero. *)
Definition well_formed (err : error) : Prop :=
  err_message err <> EmptyString /\ err_statusCode err <> Some 0.

(** The computation gives the same result whatever was traced before. *)
Definition stable {A} (m : M A) : Prop :=
  forall t t', fst (m t) = fst (m t').

(** The route entry of [app.get('/:guid', getItemByGuid)]. *)
Definition item_route (rt : Runtime) : route :=
  {| route_method := "GET"; route_path := "/:guid"; route_handler := getItemByGuid rt |}.

(** The route entry of [app.get('/', getAllData)]. *)
Definition all_route (rt : Runtime) : route :=
  {| route_method := "GET"; route_path := "/"; route_handler := getAllData rt |}.

(** The route entry of [app.get('/health', ...)]. *)
Definition health_route (o : Oracle) : route :=
  {| route_method := "GET"; route_path := "/health"; route_handler := health o |}.

Definition request_id_header (o : Oracle) : list (string * string) :=
  [("X-Request-ID", new_request_id o)].


(** The request a handler receives for a method and URL, once the request
    id is assigned and the route parameters are extracted. *)
Definition request_of (o : Oracle) (method url : string)
  (params : list (string * string)) : request :=
  {| req_method := method; req_url := url; req_id := new_request_id o;
     req_params := params |}.

(** The computation throws nothing but errors satisfying [P]. *)
Definition throws_only {A} (P : error -> Prop) (m : M A) : Prop :=
  forall t e, fst (m t) = inl e -> P e.


(** ** Sample data for the examples *)

Definition sample_guid : string := "0a1b2c3d-0000-4000-8000-00000000abcd".

Definition first_record : value :=
  VObject [("guid", VString "05024756-765e-41a9-89d7-1407436d9a58");
           ("school", VString "Iowa State University")].

Definition second_record : value :=
  VObject [("guid", VString sample_guid); ("school", VString "Other")].

Definition sample_records : list record :=
  [[("guid", VString "05024756-765e-41a9-89d7-1407436d9a58");
    ("school", VString "Iowa State University")];
   [("guid", VString sample_guid); ("school", VString "Other")]].

Definition sample_items : list value := [first_record; second_record].

Definition sample_platform : Runtime := platform (Some sample_text).

(** A dataset whose first records have no [guid], a number for a [guid],
    and a [guid] that is another string; after the record looked for come
    items that are no records at all. *)
Definition mixed_text : string :=
  "[{" +:+ Json.q "school" +:+ ": " +:+ Json.q "No key" +:+ "}, {"
       +:+ Json.q "guid" +:+ ": 7}, {"
       +:+ Json.q "guid" +:+ ": " +:+ Json.q "0A1B2C3D-0000-4000-8000-00000000ABCD" +:+ "}, {"
       +:+ Json.q "guid" +:+ ": " +:+ Json.q sample_guid +:+ "}, 12, [true], null]".

Definition mixed_items : list value :=
  [VObject [("school", VString "No key")];
   VObject [("guid", VNumber 7)];
   VObject [("guid", VString "0A1B2C3D-0000-4000-8000-00000000ABCD")];
   VObject [("guid", VString sample_guid)];
   VNumber 12;
   VArray [VBool true];
   VNull].

(** A dataset with a [null] before the record looked for. *)
Definition null_first_text : string :=
  "[null, {" +:+ Json.q "guid" +:+ ": " +:+ Json.q sample_guid +:+ "}]".

Definition other_oracle : Oracle := {|
  Date_now := 1700000000123;
  Math_random_36 := "0.k3j9x0q1zzb7";
  Date_toISOString := "2023-11-14T22:13:20.123Z";
|}.

Definition sample_request (guid : string) : request :=
  request_of sample_oracle "GET" ("/" +:+ guid) [("guid", guid)].


(** ** Log lines and load events *)

(** The line the logging middleware writes when the response is finished. *)
Definition access_line (o : Oracle) (method url : string) (statusCode : Z) : event :=
  Log LvInfo (string_of_Z statusCode +:+ " " +:+ method +:+ " " +:+ url
              +:+ " [" +:+ new_request_id o +:+ "]").

(** The line the error handler writes for an error. *)
Definition error_line (id : string) (err : error) : event :=
  Log (level_of (status_of err)) ("Error [" +:+ id +:+ "]: " +:+ message_of err).

(** What one load adds to the trace: the read, and the error line of a
    failed load. *)
Definition load_events (rt : Runtime) : list event :=
  let p := path_resolve rt (DATA_FILE_PATH rt) in
  match fst (loadData rt []) with
  | inr _ => [ReadFile p]
  | inl e => [ReadFile p; Log LvError (err_message e)]
  end.

(** What a handler adds to the trace after its own events when it leaves
    with [out]: the line of the error handler, if it left through [next]. *)
Definition error_events (id : string) (out : outcome) : list event :=
  match out with
  | Sent _ _ => []
  | Next err => [error_line id err]
  end.

(** An info-level log line. *)
Definition is_info (ev : event) : bool :=
  match ev with Log LvInfo _ => true | _ => false end.

(** The error carries no status code, or one of the two the error classes
    of the program set. *)
Definition known_status (err : error) : Prop :=
  err_statusCode err = None \/ err_statusCode err = Some 400 \/
  err_statusCode err = Some 404.

(** No character of the string is a hyphen. *)
Fixpoint no_hyphen (s : string) : bool :=
  match s with
  | EmptyString => true
  | String c rest => negb (Ascii.eqb c "-") && no_hyphen rest
  end.


(** The ways the handler of [/:guid] leaves, by the identifier, the load
    and the loaded value. *)
Inductive lookup_case (rt : Runtime) (req : request) (t : list event) : outcome -> Prop :=
  | lookup_malformed :
      isValidGuid (param "guid" (req_params req)) = false ->
      lookup_case rt req t
        (Next (ValidationError
                 ("Invalid GUID format: " +:+ ToString (param "guid" (req_params req)))))
  | lookup_load_failed g cause :
      param "guid" (req_params req) = VString g ->
      isValidGuid (VString g) = true ->
      fst (loadData rt t) = inl (load_failure cause) ->
      lookup_case rt req t (Next (load_failure cause))
  | lookup_not_array g data message :
      param "guid" (req_params req) = VString g ->
      isValidGuid (VString g) = true ->
      fst (loadData rt t) = inr data ->
      is_array data = false ->
      lookup_case rt req t (Next (TypeError message))
  | lookup_null g items message :
      param "guid" (req_params req) = VString g ->
      isValidGuid (VString g) = true ->
      fst (loadData rt t) = inr (VArray items) ->
      reaches_null g items = true ->
      lookup_case rt req t (Next (TypeError message))
  | lookup_found g items item :
      param "guid" (req_params req) = VString g ->
      isValidGuid (VString g) = true ->
      fst (loadData rt t) = inr (VArray items) ->
      reaches_null g items = false ->
      head (filter (carries g) items) = Some item ->
      lookup_case rt req t (Sent 200 item)
  | lookup_absent g items :
      param "guid" (req_params req) = VString g ->
      isValidGuid (VString g) = true ->
      fst (loadData rt t) = inr (VArray items) ->
      reaches_null g items = false ->
      head (filter (carries g) items) = None ->
      lookup_case rt req t (Next (NotFoundError ("Item not found: " +:+ g))).


(** How a request is served: how its handler left and what the handler
    added to the trace, by the route and by the state of the file. *)
Inductive served (rt : Runtime) (o : Oracle) (method url : string) (t : list event)
  : outcome -> list event -> Prop :=
  | served_unmatched :
      dispatch rt (routes rt o) method (pathname url) = NotRouted ->
      served rt o method url t
        (Sent 404 (error_body ("Route not found: " +:+ method +:+ " " +:+ url) 404
                              (new_request_id o))) []
  | served_undecoded seg :
      segments (pathname url) = Some [seg] ->
      decodeURIComponent rt seg = None ->
      served rt o method url t (Next (decode_failure seg)) []
  | served_health seg :
      handles_method "GET" method = true ->
      segments (pathname url) = Some [seg] ->
      ascii_upper_case seg = "HEALTH" ->
      served rt o method url t
        (Sent 200 (VObject [("status", VString "ok");
                            ("timestamp", VString (Date_toISOString o))])) []
  | served_all data :
      handles_method "GET" method = true ->
      segments (pathname url) = Some [] ->
      fst (loadData rt t) = inr data ->
      served rt o method url t (Sent 200 data) (load_events rt)
  | served_all_failed cause :
      handles_method "GET" method = true ->
      segments (pathname url) = Some [] ->
      fst (loadData rt t) = inl (load_failure cause) ->
      served rt o method url t (Next (load_failure cause)) (load_events rt)
  | served_item seg g out :
      handles_method "GET" method = true ->
      segments (pathname url) = Some [seg] ->
      ascii_upper_case seg <> "HEALTH" ->
      decodeURIComponent rt seg = Some g ->
      lookup_case rt (request_of o method url [("guid", g)]) t out ->
      served rt o method url t out
        (if isValidGuid (VString g) then load_events rt else []).

(** ** The shape of a URL *)







(** The status of the response a run ends with. *)
Definition status_answered (run : (error + response) * list event) : option Z :=
  match fst run with
  | inr res => Some (res_statusCode res)
  | inl _ => None
  end.


(** * Properties *)

(** ** The validator *)

Lemma app_String c s t : String c s +:+ t = String c (s +:+ t).
Proof. reflexivity. Qed.

Lemma length_app s t :
  String.length (s +:+ t) = (String.length s + String.length t)%nat.
Proof. induction s as [|c s IH]; [reflexivity|]. rewrite app_String. simpl. by rewrite IH. Qed.

Lemma class_matches_hex c : class_matches true hex_class c = is_hex_digit c.
Proof. destruct c as [[] [] [] [] [] [] [] []]; vm_compute; reflexivity. Qed.

Lemma char_matches_hyphen c : char_matches true "-" c = true <-> c = "-"%char.
Proof.
  split; [|intros ->; reflexivity].
  destruct c as [[] [] [] [] [] [] [] []]; vm_compute; intros; congruence.
Qed.

Lemma take_class_hex n s s' :
  take_class true hex_class n s = Some s' <->
  exists g, s = g +:+ s' /\ hex_group n g.
Proof.
  revert s. induction n as [|n IH]; intros s.
  - simpl. split.
    + intros [= ->]. exists EmptyString. by repeat split.
    + intros (g & -> & Hlen & _). by destruct g.
  - destruct s as [|c s]; cbn [take_class].
    + split; [discriminate|]. intros (g & Hg & Hlen & _). by destruct g.
    + rewrite class_matches_hex. split.
      * destruct (is_hex_digit c) eqn:Hc; [|discriminate].
        intros (g & -> & Hlen & Hhex)%IH. exists (String c g).
        repeat split; simpl; [by rewrite Hlen | by rewrite Hc].
      * intros (g & Hg & Hlen & Hhex). destruct g as [|c' g]; [discriminate|].
        rewrite app_String in Hg. injection Hg as <- ->.
        simpl in Hlen, Hhex. apply andb_prop in Hhex as [-> Hhex].
        apply IH. exists g. repeat split; [lia | done].
Qed.

Lemma match_class_step rest n s :
  match_items true (ReClass hex_class n :: rest) s = true <->
  exists g s', s = g +:+ s' /\ hex_group n g /\ match_items true rest s' = true.
Proof.
  simpl. split.
  - destruct (take_class true hex_class n s) as [s'|] eqn:Ht; [|discriminate].
    apply take_class_hex in Ht as (g & -> & Hg). intros Hm. by exists g, s'.
  - intros (g & s' & -> & Hg & Hm).
    assert (take_class true hex_class n (g +:+ s') = Some s') as ->; [|done].
    apply take_class_hex. by exists g.
Qed.

Lemma match_hyphen_step rest s :
  match_items true (ReChar "-" :: rest) s = true <->
  exists s', s = String "-" s' /\ match_items true rest s' = true.
Proof.
  simpl. destruct s as [|c s].
  - split; [discriminate | by intros (? & ? & ?)].
  - split.
    + intros [Hc Hm]%andb_prop. apply char_matches_hyphen in Hc as ->. by exists s.
    + intros (s' & [= -> ->] & Hm). by rewrite Hm.
Qed.

Lemma match_end s : match_items true [] s = true <-> s = EmptyString.
Proof. by destruct s. Qed.

Lemma GUID_REGEX_layout s : regexp_test GUID_REGEX s = true <-> uuid_layout s.
Proof.
  unfold regexp_test, GUID_REGEX, uuid_layout; simpl re_items; simpl re_ignoreCase.
  split.
  - intros (a & ? & -> & Ha & (? & -> & (b & ? & -> & Hb & (? & -> &
           (c & ? & -> & Hc & (? & -> & (d & ? & -> & Hd & (? & -> &
           (e & ? & -> & He & ->%match_end)%match_class_step)%match_hyphen_step
           )%match_class_step)%match_hyphen_step)%match_class_step
           )%match_hyphen_step)%match_class_step)%match_hyphen_step)%match_class_step.
    exists a, b, c, d, e. repeat split; try apply Ha; try apply Hb; try apply Hc;
      try apply Hd; try apply He.
    assert (e +:+ EmptyString = e) as ->; [|reflexivity].
    clear. induction e as [|x e IH]; [reflexivity|]. by rewrite app_String, IH.
  - intros (a & b & c & d & e & -> & Ha & Hb & Hc & Hd & He).
    apply match_class_step. exists a. eexists. split; [reflexivity|]. split; [done|].
    rewrite app_String. apply match_hyphen_step. eexists. split; [reflexivity|].
    apply match_class_step. exists b. eexists. split; [reflexivity|]. split; [done|].
    rewrite app_String. apply match_hyphen_step. eexists. split; [reflexivity|].
    apply match_class_step. exists c. eexists. split; [reflexivity|]. split; [done|].
    rewrite app_String. apply match_hyphen_step. eexists. split; [reflexivity|].
    apply match_class_step. exists d. eexists. split; [reflexivity|]. split; [done|].
    rewrite app_String. apply match_hyphen_step. eexists. split; [reflexivity|].
    apply match_class_step. exists e, EmptyString. split; [|by split].
    clear. induction e as [|x e IH]; [reflexivity|]. by rewrite app_String, <- IH.
Qed.

Lemma uuid_layout_length s : uuid_layout s -> String.length s = 36%nat.
Proof.
  intros (a & b & c & d & e & -> & [Ha _] & [Hb _] & [Hc _] & [Hd _] & [He _]).
  rewrite !length_app, Ha, Hb, Hc, Hd, He. reflexivity.
Qed.

(** C3. The validator accepts a value exactly when it is a string of 36
    characters laid out as five groups of 8, 4, 4, 4 and 12 hexadecimal
    digits (either case) separated by hyphens; anything else, strings of
    another shape and values that are not strings, is rejected. *)
Theorem isValidGuid_iff_layout (v : value) :
  isValidGuid v = true <->
  exists s, v = VString s /\ String.length s = 36%nat /\ uuid_layout s.
Proof.
  split.
  - destruct v as [| | | |s| |]; try discriminate. simpl.
    intros Hs%GUID_REGEX_layout. exists s. eauto using uuid_layout_length.
  - intros (s & -> & _ & Hs). simpl. by apply GUID_REGEX_layout.
Qed.

(** The rejected inputs the specification lists. *)
Example isValidGuid_rejects :
  isValidGuid (VString EmptyString) = false /\
  isValidGuid (VString "invalid-guid") = false /\
  isValidGuid (VString "05024756765e41a989d71407436d9a58") = false /\
  isValidGuid (VString "05024756-765e-41a9-89d7-1407436d9a5g") = false /\
  isValidGuid (VString "05024756-765e-41a9-89d7-1407436d9a58 ") = false /\
  isValidGuid (VString ("05024756-765e-41a9-89d7-1407436d9a58"
                        +:+ String "010" EmptyString)) = false /\
  isValidGuid VUndefined = false /\
  isValidGuid (VNumber 5) = false.
Proof. repeat split. Qed.

Example isValidGuid_accepts :
  isValidGuid (VString "05024756-765e-41a9-89d7-1407436d9a58") = true /\
  isValidGuid (VString "05024756-765E-41A9-89D7-1407436D9A58") = true.
Proof. repeat split. Qed.

(** ** The data loader *)

(** What one call of [loadData] does, by the outcome of the read and of
    the parse. *)
Lemma loadData_run rt t :
  loadData rt t =
    let p := path_resolve rt (DATA_FILE_PATH rt) in
    match fs_readFile rt p with
    | inl cause =>
        (inl (load_failure cause),
         (t ++ [ReadFile p]) ++ [Log LvError (err_message (load_failure cause))])
    | inr content =>
        match JSON_parse rt content with
        | inl cause =>
            (inl (load_failure cause),
             (t ++ [ReadFile p]) ++ [Log LvError (err_message (load_failure cause))])
        | inr data => (inr data, t ++ [ReadFile p])
        end
    end.
Proof.
  unfold loadData, try_catch, bind, readFile, emit, lift, logger_error, throw; simpl.
  destruct (fs_readFile rt _) as [cause|content]; [reflexivity|].
  destruct (JSON_parse rt content); reflexivity.
Qed.

(** The result of a load does not depend on what was traced before. *)
Lemma loadData_result rt t t' : fst (loadData rt t) = fst (loadData rt t').
Proof.
  rewrite !loadData_run; simpl.
  destruct (fs_readFile rt _) as [|content]; [reflexivity|].
  destruct (JSON_parse rt content); reflexivity.
Qed.

Lemma reads_app t t' : reads (t ++ t') = reads t ++ reads t'.
Proof.
  induction t as [|[p|lvl m] t IH]; simpl; [reflexivity| |]; by rewrite IH.
Qed.

(** Every load reads the file once, whatever the outcome. *)
Lemma loadData_reads rt t :
  reads (snd (loadData rt t)) = reads t ++ [path_resolve rt (DATA_FILE_PATH rt)].
Proof.
  rewrite loadData_run; simpl.
  destruct (fs_readFile rt _) as [|content]; simpl.
  - rewrite !reads_app. simpl. by rewrite app_nil_r.
  - destruct (JSON_parse rt content); simpl; rewrite !reads_app; simpl;
      by rewrite ?app_nil_r.
Qed.

Lemma loadData_throws rt t e :
  fst (loadData rt t) = inl e ->
  exists cause, e = load_failure cause.
Proof.
  rewrite loadData_run; simpl.
  destruct (fs_readFile rt _) as [c|content]; simpl; [intros [= <-]; eauto|].
  destruct (JSON_parse rt content) as [c|]; simpl; [intros [= <-]; eauto | discriminate].
Qed.

(** C1, as the code has it. The loader fails exactly when the file cannot be
    read or its text is not valid JSON; when the text parses, the loader
    returns the parsed value, array or not. *)
Theorem loadData_returns_parsed_value rt t :
  let p := path_resolve rt (DATA_FILE_PATH rt) in
  (forall content data,
      fs_readFile rt p = inr content ->
      JSON_parse rt content = inr data ->
      fst (loadData rt t) = inr data) /\
  ((exists e, fst (loadData rt t) = inl e) <->
   (exists cause, fs_readFile rt p = inl cause) \/
   (exists content cause,
       fs_readFile rt p = inr content /\ JSON_parse rt content = inl cause)).
Proof.
  intros p. subst p. rewrite loadData_run. cbv zeta.
  set (p := path_resolve rt (DATA_FILE_PATH rt)). split.
  - intros content data -> ->. reflexivity.
  - destruct (fs_readFile rt p) as [c|content]; simpl.
    + split; eauto.
    + destruct (JSON_parse rt content) as [c|data] eqn:Hp; simpl.
      * split; eauto 6.
      * split.
        -- intros [e [=]].
        -- intros [[c [=]] | (content' & c & [= <-] & Hc)]. congruence.
Qed.

(** C1 as stated fails: a file holding the JSON text of an empty object
    parses, its value is not an array, and the load returns it. *)
Lemma loadData_accepts_non_array :
  let rt := platform (Some "{}") in
  fs_readFile rt (path_resolve rt (DATA_FILE_PATH rt)) = inr "{}" /\
  JSON_parse rt "{}" = inr (VObject []) /\
  is_array (VObject []) = false /\
  loadData rt [] = (inr (VObject []), [ReadFile "/srv/app/data.json"]) /\
  ~ (exists e, fst (loadData rt []) = inl e).
Proof. repeat split. intros [e [=]]. Qed.

Lemma loadData_returns_parsed_value_witness :
  fst (loadData (platform (Some "{}")) []) = inr (VObject []).
Proof.
  apply (proj1 (loadData_returns_parsed_value (platform (Some "{}")) []) "{}");
    reflexivity.
Defined.

(** ** Lookup by identifier *)

Lemma strict_equal_string v g : strict_equal v (VString g) = true <-> v = VString g.
Proof.
  destruct v; simpl; try (split; congruence).
  rewrite String.eqb_eq. split; congruence.
Qed.

Lemma strict_equal_carries g item :
  strict_equal (guid_of item) (VString g) = bool_decide (carries g item).
Proof.
  destruct (decide (carries g item)) as [H|H].
  - rewrite (bool_decide_eq_true_2 _ H). by apply strict_equal_string.
  - rewrite (bool_decide_eq_false_2 _ H).
    destruct (strict_equal _ _) eqn:E; [|done]. by apply strict_equal_string in E.
Qed.

Lemma carries_truthy g item : carries g item -> truthy item = true.
Proof. unfold carries. by destruct item. Qed.

Lemma get_guid_run item t :
  nullish item = false -> get_guid item t = (inr (guid_of item), t).
Proof. by destruct item. Qed.

Lemma get_guid_nullish item t :
  nullish item = true -> exists message, get_guid item t = (inl (TypeError message), t).
Proof. destruct item; try discriminate; intros _; eexists; reflexivity. Qed.

(** As long as no [null] is reached, the loop of [find] is the search for
    the first item that carries the identifier. *)
Lemma find_loop_run g items t :
  reaches_null g items = false ->
  find_loop (fun item => x <- get_guid item ;; ret (strict_equal x (VString g)))
            items t =
  (inr (from_option snd VUndefined (list_find (carries g) items)), t).
Proof.
  induction items as [|item items IH]; [reflexivity|].
  cbn [reaches_null find_loop list_find].
  destruct (nullish item) eqn:Hn; [discriminate|].
  unfold bind at 1. unfold bind at 1.
  rewrite get_guid_run by done. unfold ret at 1.
  rewrite strict_equal_carries.
  case_bool_decide as Hc.
  - intros _. rewrite decide_True by done. reflexivity.
  - intros Hrest. rewrite decide_False by done. rewrite IH by done.
    by destruct (list_find (carries g) items) as [[i x]|].
Qed.

(** When a [null] is reached, reading [guid] off it throws. *)
Lemma find_loop_null g items t :
  reaches_null g items = true ->
  exists message,
    find_loop (fun item => x <- get_guid item ;; ret (strict_equal x (VString g)))
              items t =
    (inl (TypeError message), t).
Proof.
  induction items as [|item items IH]; [discriminate|].
  cbn [reaches_null find_loop].
  destruct (nullish item) eqn:Hn.
  - intros _. destruct (get_guid_nullish item t Hn) as [message Hg].
    exists message. unfold bind. by rewrite Hg.
  - unfold bind at 1. unfold bind at 1.
    rewrite get_guid_run by done. unfold ret at 1.
    rewrite strict_equal_carries.
    case_bool_decide as Hc; [discriminate|]. apply IH.
Qed.

Lemma reaches_null_Forall g items :
  Forall (fun v => nullish v = false) items -> reaches_null g items = false.
Proof.
  induction 1 as [|item items Hitem _ IH]; [reflexivity|].
  cbn [reaches_null]. rewrite Hitem, IH. by case_bool_decide.
Qed.

(** No scan of a sequence of records reaches a [null]. *)
Lemma reaches_null_records g (records : list record) :
  reaches_null g (map VObject records) = false.
Proof.
  apply reaches_null_Forall, Forall_forall.
  by intros item (r & -> & _)%list_elem_of_fmap.
Qed.

Lemma list_find_head {A} (P : A -> Prop) `{!forall x, Decision (P x)} (l : list A) :
  snd <$> list_find P l = head (filter P l).
Proof.
  induction l as [|x l IH]; [reflexivity|].
  cbn [list_find]. rewrite filter_cons. destruct (decide (P x)); [reflexivity|].
  rewrite <- IH. by destruct (list_find P l) as [[i y]|].
Qed.

(** One run of the handler on a well-formed identifier and a loaded array
    in which the scan reaches no [null]. *)
Lemma getItemByGuid_run rt req g items t :
  param "guid" (req_params req) = VString g ->
  isValidGuid (VString g) = true ->
  fst (loadData rt t) = inr (VArray items) ->
  reaches_null g items = false ->
  getItemByGuid rt req t =
  (inr (lookup_outcome g (snd <$> list_find (carries g) items)), snd (loadData rt t)).
Proof.
  intros Hparam Hvalid Hload Hitems.
  unfold getItemByGuid, try_catch. rewrite Hparam, Hvalid. cbn [negb ToString].
  unfold bind at 1. unfold ret at 1. unfold bind at 1.
  destruct (loadData rt t) as [r t'] eqn:Hl. cbn [fst snd] in *. subst r.
  unfold bind at 1. cbn [data_find]. rewrite find_loop_run by done.
  destruct (list_find (carries g) items) as [[i item]|] eqn:Hfind; cbn.
  - apply list_find_Some in Hfind as (_ & Hc & _).
    rewrite (carries_truthy g item Hc). reflexivity.
  - reflexivity.
Qed.

(** The same run when the scan reaches a [null]. *)
Lemma getItemByGuid_null rt req g items t :
  param "guid" (req_params req) = VString g ->
  isValidGuid (VString g) = true ->
  fst (loadData rt t) = inr (VArray items) ->
  reaches_null g items = true ->
  exists message,
    getItemByGuid rt req t = (inr (Next (TypeError message)), snd (loadData rt t)).
Proof.
  intros Hparam Hvalid Hload Hitems.
  unfold getItemByGuid, try_catch. rewrite Hparam, Hvalid. cbn [negb ToString].
  unfold bind at 1. unfold ret at 1. unfold bind at 1.
  destruct (loadData rt t) as [r t'] eqn:Hl. cbn [fst snd] in *. subst r.
  unfold bind at 1. cbn [data_find].
  destruct (find_loop_null g items t' Hitems) as [message ->].
  by exists message.
Qed.

(** C2. On a well-formed identifier and a loaded dataset, that is a
    sequence of records, the handler answers 200 with the first record, in
    dataset order, whose [guid] is exactly the identifier; whatever it
    returns is a record of the dataset with that very [guid], so a stored
    value that differs, be it only in letter case, is no match; and when
    no record has it, the handler fails with the not-found error, message
    ["Item not found: <identifier>"], status 404. *)
Theorem getItemByGuid_first_match rt req g (records : list record) t :
  param "guid" (req_params req) = VString g ->
  isValidGuid (VString g) = true ->
  fst (loadData rt t) = inr (dataset records) ->
  (forall i r,
      records !! i = Some r ->
      assoc "guid" r = VString g ->
      (forall j r', (j < i)%nat -> records !! j = Some r' ->
                    assoc "guid" r' <> VString g) ->
      fst (getItemByGuid rt req t) = inr (Sent 200 (VObject r))) /\
  (forall c body,
      fst (getItemByGuid rt req t) = inr (Sent c body) ->
      c = 200 /\
      exists r, body = VObject r /\ r ∈ records /\ assoc "guid" r = VString g) /\
  ((forall r, r ∈ records -> assoc "guid" r <> VString g) ->
   exists e,
     fst (getItemByGuid rt req t) = inr (Next e) /\
     err_name e = "NotFoundError" /\
     err_message e = "Item not found: " +:+ g /\
     err_statusCode e = Some 404).
Proof.
  intros Hparam Hvalid Hload.
  rewrite (getItemByGuid_run rt req g (map VObject records) t)
    by auto using reaches_null_records.
  cbn [fst]. split; [|split].
  - intros i r Hi Hg Hfirst.
    assert (list_find (carries g) (map VObject records) = Some (i, VObject r)) as ->;
      [|reflexivity].
    apply list_find_Some. split; [by rewrite list_lookup_fmap, Hi|]. split; [done|].
    intros j other Hj Hlt. rewrite list_lookup_fmap in Hj.
    destruct (records !! j) as [r'|] eqn:Hr'; [|discriminate].
    injection Hj as <-. by apply (Hfirst j r').
  - intros c body.
    destruct (list_find (carries g) (map VObject records)) as [[i item]|] eqn:Hfind;
      [|discriminate].
    cbn. intros [= <- <-]. apply list_find_Some in Hfind as (Hi & Hc & _).
    split; [reflexivity|]. rewrite list_lookup_fmap in Hi.
    destruct (records !! i) as [r|] eqn:Hr; [|discriminate]. injection Hi as <-.
    exists r. split; [reflexivity|]. split; [|done]. by eapply list_elem_of_lookup_2.
  - intros Hnone.
    assert (list_find (carries g) (map VObject records) = None) as ->.
    { apply list_find_None, Forall_forall.
      intros item (r & -> & Hr)%list_elem_of_fmap. by apply Hnone. }
    eexists. cbn. repeat split.
Qed.

(** C10, as the code has it. On a well-formed identifier and a loaded
    array, of items of whatever shape, in which no [null] comes before the
    first record that carries the identifier, the answer is that of the
    array with every item dropped that does not carry the identifier: an
    item with no [guid], or with one that is not that string, is passed
    over, and the only failure the handler can pass on is the not-found
    error.  When a [null] does come first, reading [guid] off it throws
    and the handler passes the [TypeError] on. *)
Theorem getItemByGuid_skips_other_records rt req g items t :
  param "guid" (req_params req) = VString g ->
  isValidGuid (VString g) = true ->
  fst (loadData rt t) = inr (VArray items) ->
  (reaches_null g items = false ->
   fst (getItemByGuid rt req t) =
     inr (lookup_outcome g (head (filter (carries g) items))) /\
   (forall e, fst (getItemByGuid rt req t) = inr (Next e) ->
              e = NotFoundError ("Item not found: " +:+ g))) /\
  (Forall (fun item => nullish item = false) items ->
   reaches_null g items = false) /\
  (reaches_null g items = true ->
   exists message, fst (getItemByGuid rt req t) = inr (Next (TypeError message))).
Proof.
  intros Hparam Hvalid Hload. split; [|split].
  - intros Hsafe. rewrite (getItemByGuid_run rt req g items t) by done. cbn [fst].
    rewrite list_find_head. split; [reflexivity|].
    intros e. destruct (head _); cbn; congruence.
  - apply reaches_null_Forall.
  - intros Hnull.
    destruct (getItemByGuid_null rt req g items t Hparam Hvalid Hload Hnull)
      as [message ->].
    by exists message.
Qed.

(** C10 as stated fails: in a dataset array that begins with [null], the
    scan for a well-formed identifier throws on the first item, and the
    handler fails with an internal error although the next record carries
    the identifier. *)
Lemma getItemByGuid_fails_on_null_item :
  let rt := platform (Some null_first_text) in
  let req := sample_request sample_guid in
  isValidGuid (param "guid" (req_params req)) = true /\
  fst (loadData rt []) =
    inr (VArray [VNull; VObject [("guid", VString sample_guid)]]) /\
  fst (getItemByGuid rt req []) =
    inr (Next (TypeError "Cannot read properties of null (reading 'guid')")) /\
  fst (app rt sample_oracle "GET" ("/" +:+ sample_guid) []) =
    inr {| res_statusCode := 500;
           res_headers := [("X-Request-ID", "1700000000000-4fzyo82mv")];
           res_body := error_body "Cannot read properties of null (reading 'guid')" 500
                                  "1700000000000-4fzyo82mv" |}.
Proof. repeat split; vm_compute; reflexivity. Qed.

(** ** Validation comes first *)

Lemma malformed_guid_run rt req t :
  isValidGuid (param "guid" (req_params req)) = false ->
  getItemByGuid rt req t =
    (inr (Next (ValidationError
                  ("Invalid GUID format: " +:+ ToString (param "guid" (req_params req))))),
     t).
Proof.
  intros Hbad. unfold getItemByGuid, try_catch. rewrite Hbad. reflexivity.
Qed.

(** C4. On an identifier the validator rejects, the handler fails with the
    validation error, message ["Invalid GUID format: <value>"] and status
    400, which the error handler answers with 400; the trace is left as it
    was, so the file is not read. *)
Theorem getItemByGuid_rejects_malformed rt req t :
  isValidGuid (param "guid" (req_params req)) = false ->
  let message := "Invalid GUID format: " +:+ ToString (param "guid" (req_params req)) in
  getItemByGuid rt req t = (inr (Next (ValidationError message)), t) /\
  err_statusCode (ValidationError message) = Some 400 /\
  reads (snd (getItemByGuid rt req t)) = reads t /\
  (forall t', fst (errorHandler (ValidationError message) req t') =
              inr (Sent 400 (error_body message 400 (req_id req)))).
Proof.
  intros Hbad message.
  pose proof (malformed_guid_run rt req t Hbad) as Hrun.
  fold message in Hrun. rewrite Hrun. repeat split.
Qed.

(** ** The error handler *)

Lemma errorHandler_run err req t :
  err_statusCode err <> Some 0 ->
  errorHandler err req t =
  (inr (Sent (status_of err) (error_body (message_of err) (status_of err) (req_id req))),
   t ++ [Log (level_of (status_of err))
             ("Error [" +:+ req_id req +:+ "]: " +:+ message_of err)]).
Proof.
  intros Hnz. unfold errorHandler, status_of, message_of, level_of.
  assert (truthy (VString (err_message err))
          = if decide (err_message err = EmptyString) then false else true) as ->.
  { simpl. destruct (decide _) as [->|Hne]; [reflexivity|].
    by apply negb_true_iff, String.eqb_neq. }
  destruct (err_statusCode err) as [c|] eqn:Hc; cbn [default from_option id truthy].
  - assert ((c =? 0) = false) as -> by (apply Z.eqb_neq; congruence). cbn [negb].
    destruct (decide _), (500 <=? c); reflexivity.
  - destruct (decide _); reflexivity.
Qed.

(** ** Handlers do not depend on the trace and do not throw *)

Lemma stable_ret {A} (a : A) : stable (ret a).
Proof. by intros t t'. Qed.

Lemma stable_throw {A} e : stable (@throw A e).
Proof. by intros t t'. Qed.

Lemma stable_lift {A} (r : error + A) : stable (lift r).
Proof. by intros t t'. Qed.

Lemma stable_emit ev : stable (emit ev).
Proof. by intros t t'. Qed.

Lemma stable_bind {A B} (m : M A) (k : A -> M B) :
  stable m -> (forall a, stable (k a)) -> stable (bind m k).
Proof.
  intros Hm Hk t t'. unfold bind. specialize (Hm t t').
  destruct (m t) as [[e|a] u], (m t') as [[e'|a'] u']; simpl in Hm; try congruence.
  - simpl. congruence.
  - injection Hm as <-. apply Hk.
Qed.

Lemma stable_try_catch {A} (m : M A) (h : error -> M A) :
  stable m -> (forall e, stable (h e)) -> stable (try_catch m h).
Proof.
  intros Hm Hh t t'. unfold try_catch. specialize (Hm t t').
  destruct (m t) as [[e|a] u], (m t') as [[e'|a'] u']; simpl in Hm; try congruence.
  - injection Hm as <-. apply Hh.
  - simpl. congruence.
Qed.

Lemma stable_if {A} (b : bool) (m1 m2 : M A) :
  stable m1 -> stable m2 -> stable (if b then m1 else m2).
Proof. by destruct b. Qed.

Create HintDb stable.
#[export] Hint Resolve stable_ret stable_throw stable_lift stable_emit
  stable_bind stable_try_catch stable_if : stable.

Lemma stable_loadData rt : stable (loadData rt).
Proof. intros t t'. apply loadData_result. Qed.

Lemma stable_get_guid item : stable (get_guid item).
Proof. destruct item; simpl; auto with stable. Qed.

Lemma stable_find_loop predicate items :
  (forall item, stable (predicate item)) -> stable (find_loop predicate items).
Proof.
  intros Hp. induction items as [|item items IH]; simpl; [auto with stable|].
  apply stable_bind; [done|]. intros []; auto with stable.
Qed.

Lemma stable_data_find data predicate :
  (forall item, stable (predicate item)) -> stable (data_find data predicate).
Proof.
  intros Hp. destruct data; simpl; auto using stable_find_loop with stable.
Qed.

#[export] Hint Resolve stable_loadData stable_get_guid stable_data_find : stable.

Lemma stable_getAllData rt req : stable (getAllData rt req).
Proof. unfold getAllData. auto 10 with stable. Qed.

Lemma stable_getItemByGuid rt req : stable (getItemByGuid rt req).
Proof.
  unfold getItemByGuid.
  apply stable_try_catch; [|auto with stable].
  apply stable_bind; [auto with stable|]. intros _.
  apply stable_bind; [auto with stable|]. intros data.
  apply stable_bind; [auto 10 with stable|]. intros item.
  auto 10 with stable.
Qed.

(** A handler whose body sits in [try { ... } catch (error) { next(error) }]
    always leaves with a response or through [next]. *)
Lemma caught_returns (m : M outcome) t :
  exists out, fst (try_catch m (fun error => ret (Next error)) t) = inr out.
Proof. unfold try_catch. destruct (m t) as [[e|out] u]; simpl; eauto. Qed.

Lemma getItemByGuid_returns rt req t :
  exists out, fst (getItemByGuid rt req t) = inr out.
Proof. apply caught_returns. Qed.

Lemma getAllData_returns rt req t :
  exists out, fst (getAllData rt req t) = inr out.
Proof. apply caught_returns. Qed.

(** ** The errors the handlers pass on *)

Lemma throws_ret {A} P (a : A) : throws_only P (ret a).
Proof. intros t e [=]. Qed.

Lemma throws_throw {A} (P : error -> Prop) e : P e -> throws_only P (@throw A e).
Proof. intros He t e' [= <-]. done. Qed.

Lemma throws_bind {A B} P (m : M A) (k : A -> M B) :
  throws_only P m -> (forall a, throws_only P (k a)) -> throws_only P (bind m k).
Proof.
  intros Hm Hk t e. unfold bind. specialize (Hm t).
  destruct (m t) as [[e'|a] u]; simpl in *.
  - intros [= <-]. by apply Hm.
  - apply Hk.
Qed.

Lemma throws_if {A} P (b : bool) (m1 m2 : M A) :
  throws_only P m1 -> throws_only P m2 -> throws_only P (if b then m1 else m2).
Proof. by destruct b. Qed.

Lemma well_formed_TypeError c m : well_formed (TypeError (String c m)).
Proof. split; discriminate. Qed.

Lemma well_formed_load_failure cause : well_formed (load_failure cause).
Proof. split; discriminate. Qed.

Lemma well_formed_ValidationError m : well_formed (ValidationError (String "I" m)).
Proof. split; discriminate. Qed.

Lemma well_formed_NotFoundError m : well_formed (NotFoundError (String "I" m)).
Proof. split; discriminate. Qed.

Lemma throws_get_guid item : throws_only well_formed (get_guid item).
Proof.
  destruct item; simpl;
    auto using throws_ret, throws_throw, well_formed_TypeError.
Qed.

Lemma throws_find_loop predicate items :
  (forall item, throws_only well_formed (predicate item)) ->
  throws_only well_formed (find_loop predicate items).
Proof.
  intros Hp. induction items as [|item items IH]; simpl; [apply throws_ret|].
  apply throws_bind; [done|]. intros []; [apply throws_ret | done].
Qed.

Lemma throws_data_find data predicate :
  (forall item, throws_only well_formed (predicate item)) ->
  throws_only well_formed (data_find data predicate).
Proof.
  intros Hp. destruct data; simpl;
    auto using throws_find_loop, throws_throw, well_formed_TypeError.
Qed.

Lemma throws_loadData rt : throws_only well_formed (loadData rt).
Proof.
  intros t e [cause ->]%loadData_throws. apply well_formed_load_failure.
Qed.

Lemma caught_next (m : M outcome) t e :
  throws_only well_formed m ->
  (forall t' e', fst (m t') <> inr (Next e')) ->
  fst (try_catch m (fun error => ret (Next error)) t) = inr (Next e) ->
  well_formed e.
Proof.
  intros Hm Hret. unfold try_catch. specialize (Hm t). specialize (Hret t).
  destruct (m t) as [[e'|out] u]; simpl in *.
  - intros [= <-]. by apply Hm.
  - intros [= ->]. by destruct (Hret e).
Qed.

(** A computation that ends in [res.status(...).json(...)] does not leave
    through [next] on its own. *)
Lemma bind_sends {A} (m : M A) (k : A -> M outcome) :
  (forall a t e, fst (k a t) <> inr (Next e)) ->
  forall t e, fst (bind m k t) <> inr (Next e).
Proof.
  intros Hk t e. unfold bind. destruct (m t) as [[e'|a] u]; [discriminate|apply Hk].
Qed.

Lemma getAllData_next rt req t e :
  fst (getAllData rt req t) = inr (Next e) -> well_formed e.
Proof.
  apply caught_next.
  - apply throws_bind; [apply throws_loadData | intros; apply throws_ret].
  - apply bind_sends. intros; discriminate.
Qed.

Lemma getItemByGuid_next rt req t e :
  fst (getItemByGuid rt req t) = inr (Next e) -> well_formed e.
Proof.
  apply caught_next.
  - apply throws_bind.
    { apply throws_if; [|apply throws_ret].
      apply throws_throw, well_formed_ValidationError. }
    intros _. apply throws_bind; [apply throws_loadData|]. intros data.
    apply throws_bind.
    { apply throws_data_find. intros item.
      apply throws_bind; [apply throws_get_guid | intros; apply throws_ret]. }
    intros item. apply throws_bind; [|intros; apply throws_ret].
    apply throws_if; [|apply throws_ret].
    apply throws_throw, well_formed_NotFoundError.
  - do 4 (apply bind_sends; intros). discriminate.
Qed.

(** ** The error handler on the errors that reach it *)

(** C5. Whatever error reaches the error handler, its status code, when it
    has one, being a status code and so not zero, as it is for every error
    the two handlers pass on: the answer carries the explicit status code
    of the error if it has one and 500 otherwise, the message of the error
    if it has one and ["Internal server error"] otherwise, and the body is
    the envelope of exactly these two and the identifier of the request. *)
Theorem errorHandler_envelope err req t :
  (err_statusCode err <> Some 0 ->
   let statusCode :=
     match err_statusCode err with Some c => c | None => 500 end in
   let message :=
     if decide (err_message err = EmptyString) then "Internal server error"
     else err_message err in
   fst (errorHandler err req t) =
     inr (Sent statusCode
            (VObject [("error",
                       VObject [("message", VString message);
                                ("statusCode", VNumber statusCode);
                                ("requestId", VString (req_id req))])])) /\
   reads (snd (errorHandler err req t)) = reads t) /\
  (forall rt req' t',
      fst (getAllData rt req' t') = inr (Next err) \/
      fst (getItemByGuid rt req' t') = inr (Next err) ->
      err_statusCode err <> Some 0).
Proof.
  split.
  - intros Hnz statusCode message. rewrite errorHandler_run by done. cbn [fst snd].
    split.
    + unfold statusCode, message, status_of, message_of, error_body.
      destruct (err_statusCode err); reflexivity.
    + rewrite reads_app. simpl. by rewrite app_nil_r.
  - intros rt req' t' [H|H].
    + by destruct (getAllData_next rt req' t' err H).
    + by destruct (getItemByGuid_next rt req' t' err H).
Qed.

(** ** Routing and the middleware chain *)

Lemma to_lower_to_upper c : to_lower (to_upper c) = to_lower c.
Proof. destruct c as [[] [] [] [] [] [] [] []]; reflexivity. Qed.

Lemma to_upper_to_lower c : to_upper (to_lower c) = to_upper c.
Proof. destruct c as [[] [] [] [] [] [] [] []]; reflexivity. Qed.

Lemma lower_of_upper s : ascii_lower_case (ascii_upper_case s) = ascii_lower_case s.
Proof.
  unfold ascii_lower_case, ascii_upper_case.
  induction s as [|c s IH]; [reflexivity|].
  cbn [map_string]. by rewrite to_lower_to_upper, IH.
Qed.

Lemma upper_of_lower s : ascii_upper_case (ascii_lower_case s) = ascii_upper_case s.
Proof.
  unfold ascii_lower_case, ascii_upper_case.
  induction s as [|c s IH]; [reflexivity|].
  cbn [map_string]. by rewrite to_upper_to_lower, IH.
Qed.

(** The literal segment of [/health] in either folding. *)
Lemma health_case seg :
  ascii_upper_case seg = "HEALTH" <-> ascii_lower_case seg = "health".
Proof.
  split; intros H.
  - rewrite <- lower_of_upper, H. reflexivity.
  - rewrite <- upper_of_lower, H. reflexivity.
Qed.

Lemma to_upper_percent c : Ascii.eqb (to_upper c) "%" = Ascii.eqb c "%".
Proof. destruct c as [[] [] [] [] [] [] [] []]; reflexivity. Qed.

Lemma percent_free_upper s : percent_free (ascii_upper_case s) = percent_free s.
Proof.
  unfold ascii_upper_case. induction s as [|c s IH]; [reflexivity|].
  cbn [map_string percent_free]. by rewrite to_upper_percent, IH.
Qed.

Lemma health_percent_free seg : ascii_upper_case seg = "HEALTH" -> percent_free seg = true.
Proof. intros H. rewrite <- percent_free_upper, H. reflexivity. Qed.

Lemma handles_get_cases method :
  handles_method "GET" method = true ->
  ascii_lower_case method = "get" \/ ascii_lower_case method = "head".
Proof.
  unfold handles_method. change (ascii_lower_case "GET") with "get".
  intros H. apply orb_true_iff in H as [H|H].
  - left. symmetry. by apply String.eqb_eq.
  - right. apply andb_true_iff in H as [H _]. by apply String.eqb_eq.
Qed.

Lemma handles_get_GET : handles_method "GET" "GET" = true.
Proof. reflexivity. Qed.


Lemma match_layer_health rt path :
  match_layer rt "/health" path =
  match segments path with
  | Some [seg] => if String.eqb "HEALTH" (ascii_upper_case seg) then Match [] else NoMatch
  | _ => NoMatch
  end.
Proof.
  unfold match_layer, match_path. change (segments "/health") with (Some ["health"]).
  destruct (segments path) as [[|a [|b rest]]|]; try reflexivity.
  - cbn [match_segments]. change (ascii_upper_case "health") with "HEALTH".
    destruct (String.eqb "HEALTH" (ascii_upper_case a)); reflexivity.
  - cbn [match_segments]. change (ascii_upper_case "health") with "HEALTH".
    destruct (String.eqb "HEALTH" (ascii_upper_case a)); reflexivity.
Qed.

Lemma match_layer_root rt path :
  match_layer rt "/" path =
  match segments path with
  | Some [] => Match []
  | _ => NoMatch
  end.
Proof.
  unfold match_layer, match_path. change (segments "/") with (Some (@nil string)).
  destruct (segments path) as [[|a rest]|]; reflexivity.
Qed.

Lemma match_layer_guid rt path :
  match_layer rt "/:guid" path =
  match segments path with
  | Some [seg] =>
      if String.eqb seg EmptyString then NoMatch
      else match decodeURIComponent rt seg with
           | Some g => Match [("guid", g)]
           | None => MatchError (decode_failure seg)
           end
  | _ => NoMatch
  end.
Proof.
  unfold match_layer, match_path. change (segments "/:guid") with (Some [":guid"]).
  destruct (segments path) as [[|a [|b rest]]|]; try reflexivity.
  - cbn [match_segments]. destruct (String.eqb a EmptyString); [reflexivity|].
    cbn [decode_params]. destruct (decodeURIComponent rt a); reflexivity.
  - cbn [match_segments]. destruct (String.eqb a EmptyString); reflexivity.
Qed.

(** The route table, by the segments of the path. *)
Lemma dispatch_routes rt o method path :
  dispatch rt (routes rt o) method path =
  match segments path with
  | Some [] =>
      if handles_method "GET" method then Routed (all_route rt) [] else NotRouted
  | Some [seg] =>
      if String.eqb "HEALTH" (ascii_upper_case seg) && handles_method "GET" method
      then Routed (health_route o) []
      else if String.eqb seg EmptyString then NotRouted
      else match decodeURIComponent rt seg with
           | Some g =>
               if handles_method "GET" method
               then Routed (item_route rt) [("guid", g)] else NotRouted
           | None => ParamError (decode_failure seg)
           end
  | _ => NotRouted
  end.
Proof.
  unfold routes, dispatch, route_method, route_path.
  rewrite match_layer_health, match_layer_root, match_layer_guid.
  destruct (segments path) as [[|a [|b rest]]|]; try reflexivity.
  destruct (String.eqb "HEALTH" (ascii_upper_case a));
    destruct (handles_method "GET" method); try reflexivity;
    destruct (String.eqb a EmptyString); try reflexivity;
    destruct (decodeURIComponent rt a); reflexivity.
Qed.

Lemma split_slash_cons s : exists seg segs, split_slash s = seg :: segs.
Proof.
  induction s as [|c s (seg & segs & IH)]; simpl; [eauto|].
  destruct (Ascii.eqb c "/"); [eauto|]. rewrite IH. eauto.
Qed.










(** A request whose route handler leaves with [out]. *)
Lemma app_matched rt o method url t r params out :
  dispatch rt (routes rt o) method (pathname url) = Routed r params ->
  fst (route_handler r (request_of o method url params) t) = inr out ->
  (forall e, out = Next e -> err_statusCode e <> Some 0) ->
  fst (app rt o method url t) =
  inr {| res_statusCode := fst (answer (new_request_id o) out);
         res_headers := request_id_header o;
         res_body := snd (answer (new_request_id o) out) |}.
Proof.
  intros Hd Hout Hwf. unfold app. rewrite Hd. fold (request_of o method url params).
  unfold bind at 1. unfold bind at 1.
  destruct (route_handler r _ t) as [[e|out'] u]; simpl in Hout; [discriminate|].
  injection Hout as ->. destruct out as [c body|e].
  - reflexivity.
  - rewrite errorHandler_run by (by apply Hwf). reflexivity.
Qed.

(** A request with a parameter that cannot be decoded. *)
Lemma app_undecoded rt o method url t val :
  dispatch rt (routes rt o) method (pathname url) = ParamError (decode_failure val) ->
  app rt o method url t =
  (inr {| res_statusCode := 400;
          res_headers := request_id_header o;
          res_body := error_body ("Failed to decode param '" +:+ val +:+ "'") 400
                                 (new_request_id o) |},
   t ++ [Log LvWarn ("Error [" +:+ new_request_id o +:+ "]: "
                     +:+ "Failed to decode param '" +:+ val +:+ "'");
         Log LvInfo ("400 " +:+ method +:+ " " +:+ url
                     +:+ " [" +:+ new_request_id o +:+ "]")]).
Proof.
  intros Hd. unfold app. rewrite Hd.
  unfold bind at 1. rewrite errorHandler_run by discriminate.
  cbn. rewrite <- app_assoc. reflexivity.
Qed.

Lemma route_not_found_run rt o method url t :
  dispatch rt (routes rt o) method (pathname url) = NotRouted ->
  fst (app rt o method url t) =
    inr {| res_statusCode := 404;
           res_headers := request_id_header o;
           res_body := error_body ("Route not found: " +:+ method +:+ " " +:+ url) 404
                                  (new_request_id o) |}.
Proof. intros Hd. unfold app. rewrite Hd. reflexivity. Qed.

(** C7. A request that no route matches is answered 404 with the error
    envelope, the message ["Route not found: <method> <url>"] and the
    identifier of the request, the one the [X-Request-ID] header carries. *)
Theorem unmatched_route_404 rt o method url t :
  dispatch rt (routes rt o) method (pathname url) = NotRouted ->
  let id := new_request_id o in
  let message := "Route not found: " +:+ method +:+ " " +:+ url in
  fst (app rt o method url t) =
    inr {| res_statusCode := 404;
           res_headers := [("X-Request-ID", id)];
           res_body :=
             VObject [("error",
                       VObject [("message", VString message);
                                ("statusCode", VNumber 404);
                                ("requestId", VString id)])] |} /\
  String.prefix "Route not found" message = true.
Proof.
  intros Hd id message. unfold app. rewrite Hd. split; reflexivity.
Qed.

(** C6. On [GET /], when the load succeeds the answer is 200 with the
    loaded value as it is, so a record sequence in dataset order; when the
    load fails, the failure goes through [next] to the error handler and
    is answered 500. *)
Theorem list_endpoint rt o url t :
  pathname url = "/" ->
  let req := request_of o "GET" url [] in
  (forall data,
      fst (loadData rt t) = inr data ->
      fst (getAllData rt req t) = inr (Sent 200 data) /\
      fst (app rt o "GET" url t) =
        inr {| res_statusCode := 200;
               res_headers := request_id_header o;
               res_body := data |}) /\
  (forall e,
      fst (loadData rt t) = inl e ->
      fst (getAllData rt req t) = inr (Next e) /\
      fst (app rt o "GET" url t) =
        inr {| res_statusCode := 500;
               res_headers := request_id_header o;
               res_body := error_body (err_message e) 500 (new_request_id o) |}).
Proof.
  intros Hpath req.
  assert (dispatch rt (routes rt o) "GET" (pathname url) = Routed (all_route rt) []) as Hd.
  { rewrite dispatch_routes, Hpath. reflexivity. }
  split.
  - intros data Hload.
    assert (fst (getAllData rt req t) = inr (Sent 200 data)) as Hh.
    { unfold getAllData, try_catch, bind.
      destruct (loadData rt t) as [[e|d] u]; simpl in Hload; [discriminate|].
      by injection Hload as ->. }
    split; [done|].
    rewrite (app_matched rt o "GET" url t _ _ _ Hd Hh); [reflexivity | discriminate].
  - intros e Hload.
    assert (fst (getAllData rt req t) = inr (Next e)) as Hh.
    { unfold getAllData, try_catch, bind.
      destruct (loadData rt t) as [[e'|d] u]; simpl in Hload; [|discriminate].
      by injection Hload as ->. }
    split; [done|].
    apply loadData_throws in Hload as [cause ->].
    rewrite (app_matched rt o "GET" url t _ _ _ Hd Hh); [reflexivity|].
    intros e [= <-]. discriminate.
Qed.

(** The route of a [GET] on a single segment other than [health]. *)
Lemma dispatch_item rt o path seg :
  segments path = Some [seg] ->
  seg <> EmptyString ->
  ascii_lower_case seg <> "health" ->
  dispatch rt (routes rt o) "GET" path =
  match decodeURIComponent rt seg with
  | Some g => Routed (item_route rt) [("guid", g)]
  | None => ParamError (decode_failure seg)
  end.
Proof.
  intros Hseg Hne Hh. rewrite dispatch_routes, Hseg.
  assert (String.eqb "HEALTH" (ascii_upper_case seg) = false) as ->.
  { apply String.eqb_neq. intros H. by apply Hh, health_case. }
  assert (String.eqb seg EmptyString = false) as -> by (by apply String.eqb_neq).
  cbn [andb]. rewrite handles_get_GET. reflexivity.
Qed.


(** ** Two runs of the same request *)

Lemma getAllData_request rt req req' : getAllData rt req = getAllData rt req'.
Proof. reflexivity. Qed.

Lemma getItemByGuid_request rt req req' :
  req_params req = req_params req' -> getItemByGuid rt req = getItemByGuid rt req'.
Proof. intros Hp. unfold getItemByGuid. by rewrite Hp. Qed.

(** The two data handlers leave the same way on two requests with the same
    route parameters, whatever their identifiers, their query strings and
    what was traced before. *)
Lemma handler_outcome_same rt o1 o2 method url1 url2 params t1 t2 r :
  r = all_route rt \/ r = item_route rt ->
  exists out,
    fst (route_handler r (request_of o1 method url1 params) t1) = inr out /\
    fst (route_handler r (request_of o2 method url2 params) t2) = inr out /\
    (forall e, out = Next e -> well_formed e).
Proof.
  intros [-> | ->]; cbn [route_handler all_route item_route].
  - destruct (getAllData_returns rt (request_of o1 method url1 params) t1) as [out Hout].
    exists out. split; [done|]. split.
    + rewrite (getAllData_request rt _ (request_of o1 method url1 params)).
      by rewrite (stable_getAllData rt _ t2 t1).
    + intros e ->. by eapply getAllData_next.
  - destruct (getItemByGuid_returns rt (request_of o1 method url1 params) t1) as [out Hout].
    exists out. split; [done|]. split.
    + rewrite (getItemByGuid_request rt _ (request_of o1 method url1 params)) by done.
      by rewrite (stable_getItemByGuid rt _ t2 t1).
    + intros e ->. by eapply getItemByGuid_next.
Qed.

Lemma dispatch_oracle rt o1 o2 method path r params :
  r = all_route rt \/ r = item_route rt ->
  dispatch rt (routes rt o1) method path = Routed r params ->
  dispatch rt (routes rt o2) method path = Routed r params.
Proof.
  intros Hr. rewrite !dispatch_routes.
  destruct (segments path) as [[|a [|b rest]]|]; try done.
  destruct (String.eqb "HEALTH" (ascii_upper_case a) && handles_method "GET" method);
    [|done].
  intros [= <- <-]. destruct Hr as [Hr | Hr]; discriminate Hr.
Qed.

(** C8. Two runs of the list handler or of the get-by-identifier handler
    on the same method and path, over the same platform, hence the same
    file, whatever the request identifiers, the clock, the query strings
    and the traces of the two runs: both are answered, with the same
    status, and with the same body or with two error envelopes that differ
    in the request identifier only. *)
Theorem handlers_deterministic rt o1 o2 method url1 url2 t1 t2 r params :
  pathname url1 = pathname url2 ->
  dispatch rt (routes rt o1) method (pathname url1) = Routed r params ->
  r = all_route rt \/ r = item_route rt ->
  exists r1 r2,
    fst (app rt o1 method url1 t1) = inr r1 /\
    fst (app rt o2 method url2 t2) = inr r2 /\
    res_statusCode r1 = res_statusCode r2 /\
    (res_body r1 = res_body r2 \/
     exists message statusCode,
       res_body r1 = error_body message statusCode (new_request_id o1) /\
       res_body r2 = error_body message statusCode (new_request_id o2)).
Proof.
  intros Hpath Hd1 Hr.
  pose proof (dispatch_oracle rt o1 o2 method _ r params Hr Hd1) as Hd2.
  rewrite Hpath in Hd2.
  destruct (handler_outcome_same rt o1 o2 method url1 url2 params t1 t2 r Hr)
    as (out & H1 & H2 & Hwf).
  assert (forall e, out = Next e -> err_statusCode e <> Some 0) as Hnz.
  { intros e He. by destruct (Hwf e He). }
  eexists _, _.
  split; [exact (app_matched rt o1 method url1 t1 r params out Hd1 H1 Hnz)|].
  split; [exact (app_matched rt o2 method url2 t2 r params out Hd2 H2 Hnz)|].
  destruct out as [c body|e]; cbn; [by split; [|left]|].
  split; [reflexivity|]. right. by eexists _, _.
Qed.

(** The health endpoint answers 200 with a body in which only the
    timestamp varies. *)
Lemma health_endpoint rt o url t :
  pathname url = "/health" ->
  fst (app rt o "GET" url t) =
    inr {| res_statusCode := 200;
           res_headers := request_id_header o;
           res_body := VObject [("status", VString "ok");
                                ("timestamp", VString (Date_toISOString o))] |}.
Proof.
  intros Hpath.
  assert (dispatch rt (routes rt o) "GET" (pathname url) = Routed (health_route o) [])
    as Hd.
  { rewrite dispatch_routes, Hpath. reflexivity. }
  rewrite (app_matched rt o "GET" url t _ _ _ Hd eq_refl); [reflexivity | discriminate].
Qed.

Lemma routed_cases rt o method path r params :
  dispatch rt (routes rt o) method path = Routed r params ->
  r = health_route o \/ r = all_route rt \/ r = item_route rt.
Proof.
  rewrite dispatch_routes.
  destruct (segments path) as [[|a [|b rest]]|]; try discriminate.
  - destruct (handles_method "GET" method); [|discriminate].
    intros [= <- <-]. auto.
  - destruct (String.eqb "HEALTH" (ascii_upper_case a) && handles_method "GET" method);
      [intros [= <- <-]; auto|].
    destruct (String.eqb a EmptyString); [discriminate|].
    destruct (decodeURIComponent rt a); [|discriminate].
    destruct (handles_method "GET" method); [|discriminate].
    intros [= <- <-]. auto.
Qed.

Lemma param_error_cases rt o method path err :
  dispatch rt (routes rt o) method path = ParamError err ->
  exists seg, segments path = Some [seg] /\ decodeURIComponent rt seg = None /\
              err = decode_failure seg.
Proof.
  rewrite dispatch_routes.
  destruct (segments path) as [[|a [|b rest]]|]; try discriminate.
  - destruct (handles_method "GET" method); discriminate.
  - destruct (String.eqb "HEALTH" (ascii_upper_case a) && handles_method "GET" method);
      [discriminate|].
    destruct (String.eqb a EmptyString); [discriminate|].
    destruct (decodeURIComponent rt a) eqn:Hg.
    + destruct (handles_method "GET" method); discriminate.
    + intros [= <-]. by exists a.
Qed.

(** Every request is answered: no error escapes the middleware chain. *)
Lemma app_responds rt o method url t :
  exists res, fst (app rt o method url t) = inr res /\
              res_headers res = [("X-Request-ID", new_request_id o)].
Proof.
  destruct (dispatch rt (routes rt o) method (pathname url)) as [r params| |err] eqn:Hd.
  - destruct (routed_cases rt o method _ r params Hd) as [-> | Hr].
    + eexists. split; [by apply (app_matched rt o method url t _ _ _ Hd eq_refl)|].
      reflexivity.
    + destruct (handler_outcome_same rt o o method url url params t t r Hr)
        as (out & H1 & _ & Hwf).
      assert (forall e, out = Next e -> err_statusCode e <> Some 0) as Hnz.
      { intros e He. by destruct (Hwf e He). }
      eexists. split; [apply (app_matched rt o method url t _ _ out Hd H1 Hnz)|].
      reflexivity.
  - eexists. split; [apply (route_not_found_run rt o method url t Hd)|reflexivity].
  - destruct (param_error_cases rt o method _ err Hd) as (seg & _ & _ & ->).
    rewrite (app_undecoded rt o method url t seg Hd). by eexists.
Qed.

(** ** The theorems at work on the sample data *)


Lemma getItemByGuid_first_match_witness :
  fst (getItemByGuid sample_platform (sample_request sample_guid) []) =
  inr (Sent 200 second_record).
Proof.
  refine (proj1 (getItemByGuid_first_match sample_platform (sample_request sample_guid)
                   sample_guid sample_records [] eq_refl eq_refl _)
                1%nat [("guid", VString sample_guid); ("school", VString "Other")]
                eq_refl eq_refl _).
  - vm_compute. reflexivity.
  - intros [|j] r' Hlt; [intros [= <-] | lia].
    change (~ carries sample_guid first_record). compute_done.
Defined.

Lemma getItemByGuid_skips_other_records_witness :
  fst (getItemByGuid (platform (Some mixed_text)) (sample_request sample_guid) []) =
  inr (Sent 200 (VObject [("guid", VString sample_guid)])).
Proof.
  refine (proj1 (proj1 (getItemByGuid_skips_other_records (platform (Some mixed_text))
                          (sample_request sample_guid) sample_guid mixed_items []
                          eq_refl eq_refl _) _)).
  - vm_compute. reflexivity.
  - vm_compute. reflexivity.
Defined.

Lemma getItemByGuid_rejects_malformed_witness :
  getItemByGuid sample_platform (sample_request "invalid-guid") [] =
  (inr (Next (ValidationError "Invalid GUID format: invalid-guid")), []).
Proof.
  exact (proj1 (getItemByGuid_rejects_malformed sample_platform
                  (sample_request "invalid-guid") [] eq_refl)).
Defined.

Lemma errorHandler_envelope_witness :
  fst (errorHandler (NotFoundError "Item not found: x") (sample_request "x") []) =
  inr (Sent 404 (error_body "Item not found: x" 404 "1700000000000-4fzyo82mv")).
Proof.
  refine (proj1 (proj1 (errorHandler_envelope (NotFoundError "Item not found: x")
                          (sample_request "x") []) _)).
  compute_done.
Defined.

Lemma list_endpoint_witness :
  fst (app sample_platform sample_oracle "GET" "/" []) =
  inr {| res_statusCode := 200;
         res_headers := [("X-Request-ID", "1700000000000-4fzyo82mv")];
         res_body := VArray sample_items |}.
Proof.
  refine (proj2 (proj1 (list_endpoint sample_platform sample_oracle "/" [] eq_refl)
                   (VArray sample_items) _)).
  vm_compute. reflexivity.
Defined.

Lemma unmatched_route_404_witness :
  fst (app sample_platform sample_oracle "POST" "/nonexistent" []) =
  inr {| res_statusCode := 404;
         res_headers := [("X-Request-ID", "1700000000000-4fzyo82mv")];
         res_body := error_body "Route not found: POST /nonexistent" 404
                                "1700000000000-4fzyo82mv" |}.
Proof.
  exact (proj1 (unmatched_route_404 sample_platform sample_oracle "POST" "/nonexistent"
                  [] eq_refl)).
Defined.

Lemma handlers_deterministic_witness :
  exists r1 r2,
    fst (app sample_platform sample_oracle "GET" ("/" +:+ sample_guid) []) = inr r1 /\
    fst (app sample_platform other_oracle "GET" ("/" +:+ sample_guid +:+ "?again=1")
             [Log LvInfo "200 GET / [x]"]) = inr r2 /\
    res_statusCode r1 = res_statusCode r2 /\
    (res_body r1 = res_body r2 \/
     exists message statusCode,
       res_body r1 = error_body message statusCode (new_request_id sample_oracle) /\
       res_body r2 = error_body message statusCode (new_request_id other_oracle)).
Proof.
  refine (handlers_deterministic sample_platform sample_oracle other_oracle "GET"
            ("/" +:+ sample_guid) ("/" +:+ sample_guid +:+ "?again=1")
            [] [Log LvInfo "200 GET / [x]"] (item_route sample_platform)
            [("guid", sample_guid)] eq_refl eq_refl _).
  right. reflexivity.
Defined.



(** The route table under the defaults of the framework: a trailing
    slash, [HEAD], a percent-encoded identifier, a segment that cannot be
    decoded whatever the method, and what reaches the last middleware. *)
Example routing_defaults :
  status_answered (app sample_platform sample_oracle "GET" "/health/" []) = Some 200 /\
  status_answered (app sample_platform sample_oracle "GET" "/Health?x=1" []) = Some 200 /\
  fst (app sample_platform sample_oracle "HEAD" "/" []) =
    inr {| res_statusCode := 200;
           res_headers := [("X-Request-ID", "1700000000000-4fzyo82mv")];
           res_body := VArray sample_items |} /\
  app sample_platform sample_oracle "GET" "/%30a1b2c3d-0000-4000-8000-00000000abcd" [] =
    (inr {| res_statusCode := 200;
            res_headers := [("X-Request-ID", "1700000000000-4fzyo82mv")];
            res_body := second_record |},
     [ReadFile "/srv/app/data.json";
      Log LvInfo
        "200 GET /%30a1b2c3d-0000-4000-8000-00000000abcd [1700000000000-4fzyo82mv]"]) /\
  fst (app sample_platform sample_oracle "GET" "/invalid-guid/" []) =
    inr {| res_statusCode := 400;
           res_headers := [("X-Request-ID", "1700000000000-4fzyo82mv")];
           res_body := error_body "Invalid GUID format: invalid-guid" 400
                                  "1700000000000-4fzyo82mv" |} /\
  app sample_platform sample_oracle "POST" "/%zz" [] =
    (inr {| res_statusCode := 400;
            res_headers := [("X-Request-ID", "1700000000000-4fzyo82mv")];
            res_body := error_body "Failed to decode param '%zz'" 400
                                   "1700000000000-4fzyo82mv" |},
     [Log LvWarn "Error [1700000000000-4fzyo82mv]: Failed to decode param '%zz'";
      Log LvInfo "400 POST /%zz [1700000000000-4fzyo82mv]"]) /\
  status_answered (app sample_platform sample_oracle "OPTIONS" "/health" []) = Some 404 /\
  status_answered (app sample_platform sample_oracle "POST" "/health" []) = Some 404 /\
  status_answered (app sample_platform sample_oracle "GET" "//" []) = Some 404 /\
  status_answered (app sample_platform sample_oracle "GET" "/health//" []) = Some 404 /\
  status_answered (app sample_platform sample_oracle "GET" "/a/b" []) = Some 404.
Proof. split_and!; vm_compute; reflexivity. Qed.

(** The decoder of the reference platform: escapes become bytes, a
    character of several bytes must be well-formed UTF-8, a [%] without
    two hexadecimal digits is refused. *)
Example decode_examples :
  Uri.decode "a%2Fb%20c" = Some "a/b c" /\
  Uri.decode "%e2%82%AC" = Some (Uri.chars [226; 130; 172]%N) /\
  Uri.decode "%C3%A9t%C3%A9" = Some (Uri.chars [195; 169; 116; 195; 169]%N) /\
  Uri.decode "%F0%9F%98%80" = Some (Uri.chars [240; 159; 152; 128]%N) /\
  Uri.decode "100%" = None /\
  Uri.decode "%4" = None /\
  Uri.decode "%zz" = None /\
  Uri.decode "%80" = None /\
  Uri.decode "%C0%80" = None /\
  Uri.decode "%E0%80%80" = None /\
  Uri.decode "%ED%A0%80" = None /\
  Uri.decode "%F4%90%80%80" = None /\
  Uri.decode "%E2%82" = None /\
  Uri.decode "%E2%82x" = None /\
  Uri.decode "%FF" = None.
Proof. split_and!; vm_compute; reflexivity. Qed.

(** An identifier that differs from a stored one in letter case only is
    well formed and finds nothing. *)
Example lookup_is_case_sensitive :
  isValidGuid (VString "0A1B2C3D-0000-4000-8000-00000000ABCD") = true /\
  fst (app sample_platform sample_oracle "GET" "/0A1B2C3D-0000-4000-8000-00000000ABCD" []) =
  inr {| res_statusCode := 404;
         res_headers := [("X-Request-ID", "1700000000000-4fzyo82mv")];
         res_body := error_body "Item not found: 0A1B2C3D-0000-4000-8000-00000000ABCD"
                                404 "1700000000000-4fzyo82mv" |}.
Proof. split; vm_compute; reflexivity. Qed.

(** A file that holds a value other than an array: the list endpoint
    answers 200 with that value; the lookup finds no [find] to call. *)
Example endpoints_on_non_array :
  fst (app (platform (Some "{}")) sample_oracle "GET" "/" []) =
  inr {| res_statusCode := 200;
         res_headers := [("X-Request-ID", "1700000000000-4fzyo82mv")];
         res_body := VObject [] |} /\
  fst (app (platform (Some "{}")) sample_oracle "GET" ("/" +:+ sample_guid) []) =
  inr {| res_statusCode := 500;
         res_headers := [("X-Request-ID", "1700000000000-4fzyo82mv")];
         res_body := error_body "data.find is not a function" 500
                                "1700000000000-4fzyo82mv" |}.
Proof. split; vm_compute; reflexivity. Qed.

(** A missing file: the list endpoint answers 500 with the wrapped cause. *)
Example list_endpoint_missing_file :
  app (platform None) sample_oracle "GET" "/" [] =
  (inr {| res_statusCode := 500;
          res_headers := [("X-Request-ID", "1700000000000-4fzyo82mv")];
          res_body :=
            error_body
              "Failed to load data file: ENOENT: no such file or directory, open '/srv/app/data.json'"
              500 "1700000000000-4fzyo82mv" |},
   [ReadFile "/srv/app/data.json";
    Log LvError
      "Failed to load data file: ENOENT: no such file or directory, open '/srv/app/data.json'";
    Log LvError
      "Error [1700000000000-4fzyo82mv]: Failed to load data file: ENOENT: no such file or directory, open '/srv/app/data.json'";
    Log LvInfo "500 GET / [1700000000000-4fzyo82mv]"]).
Proof. vm_compute. reflexivity. Qed.

(** A malformed identifier: the whole request leaves two log lines and
    reads nothing. *)
Example malformed_request_trace :
  snd (app sample_platform sample_oracle "GET" "/invalid-guid" []) =
  [Log LvWarn "Error [1700000000000-4fzyo82mv]: Invalid GUID format: invalid-guid";
   Log LvInfo "400 GET /invalid-guid [1700000000000-4fzyo82mv]"].
Proof. vm_compute. reflexivity. Qed.

(** * Further properties of the program *)

(** ** What each part adds to the trace *)

Lemma loadData_trace rt t : snd (loadData rt t) = t ++ load_events rt.
Proof.
  unfold load_events. rewrite !loadData_run. cbv zeta.
  destruct (fs_readFile rt _) as [c|content]; cbn [fst snd].
  - by rewrite <- app_assoc.
  - destruct (JSON_parse rt content) as [c|data]; cbn [fst snd]; [|done].
    by rewrite <- app_assoc.
Qed.

Lemma get_guid_trace item t : snd (get_guid item t) = t.
Proof. by destruct item. Qed.

Lemma find_loop_trace g items t :
  snd (find_loop (fun item => x <- get_guid item ;; ret (strict_equal x (VString g)))
                 items t) = t.
Proof.
  induction items as [|item items IH]; [reflexivity|].
  cbn [find_loop]. unfold bind at 1. unfold bind at 1.
  pose proof (get_guid_trace item t) as Ht.
  destruct (get_guid item t) as [[e|x] u]; cbn [snd] in Ht; subst u; [reflexivity|].
  unfold ret at 1. destruct (strict_equal x (VString g)); [reflexivity|apply IH].
Qed.

Lemma getAllData_trace rt req t : snd (getAllData rt req t) = t ++ load_events rt.
Proof.
  rewrite <- loadData_trace. unfold getAllData, try_catch, bind.
  by destruct (loadData rt t) as [[e|data] u].
Qed.

Lemma getItemByGuid_trace rt req g t :
  param "guid" (req_params req) = VString g ->
  isValidGuid (VString g) = true ->
  snd (getItemByGuid rt req t) = t ++ load_events rt.
Proof.
  intros Hparam Hvalid. rewrite <- loadData_trace.
  unfold getItemByGuid, try_catch. rewrite Hparam, Hvalid. cbn [negb].
  unfold bind at 1. unfold ret at 1. unfold bind at 1.
  destruct (loadData rt t) as [[e|data] u]; [reflexivity|]. cbn [snd].
  unfold bind at 1.
  destruct data as [| | | | |items|]; try reflexivity. cbn [data_find].
  pose proof (find_loop_trace g items u) as Ht.
  destruct (find_loop _ items u) as [[e|item] u']; cbn [snd] in Ht; subst u';
    [reflexivity|].
  unfold bind. by destruct (negb (truthy item)).
Qed.

(** ** Every way the lookup can leave *)

Lemma getItemByGuid_load_failure rt req g t e :
  param "guid" (req_params req) = VString g ->
  isValidGuid (VString g) = true ->
  fst (loadData rt t) = inl e ->
  fst (getItemByGuid rt req t) = inr (Next e).
Proof.
  intros Hparam Hvalid Hload.
  unfold getItemByGuid, try_catch. rewrite Hparam, Hvalid. cbn [negb].
  unfold bind at 1. unfold ret at 1. unfold bind at 1.
  destruct (loadData rt t) as [[e'|data] u]; cbn [fst] in Hload; [|discriminate].
  by injection Hload as ->.
Qed.

Lemma getItemByGuid_not_array rt req g data t :
  param "guid" (req_params req) = VString g ->
  isValidGuid (VString g) = true ->
  fst (loadData rt t) = inr data ->
  is_array data = false ->
  exists message, fst (getItemByGuid rt req t) = inr (Next (TypeError message)).
Proof.
  intros Hparam Hvalid Hload Hdata.
  unfold getItemByGuid, try_catch. rewrite Hparam, Hvalid. cbn [negb].
  unfold bind at 1. unfold ret at 1. unfold bind at 1.
  destruct (loadData rt t) as [[e'|data'] u]; cbn [fst] in Hload; [discriminate|].
  injection Hload as ->. unfold bind at 1.
  destruct data; try discriminate; eexists; reflexivity.
Qed.

Lemma getItemByGuid_cases rt req t :
  exists out, fst (getItemByGuid rt req t) = inr out /\ lookup_case rt req t out.
Proof.
  destruct (isValidGuid (param "guid" (req_params req))) eqn:Hvalid.
  - destruct (param "guid" (req_params req)) as [| | | |g| |] eqn:Hparam;
      try discriminate.
    destruct (fst (loadData rt t)) as [e|data] eqn:Hload.
    + exists (Next e). split; [by eapply getItemByGuid_load_failure|].
      destruct (loadData_throws rt t e Hload) as [cause ->].
      by eapply lookup_load_failed.
    + destruct (is_array data) eqn:Harr.
      * destruct data as [| | | | |items|]; try discriminate.
        destruct (reaches_null g items) eqn:Hnull.
        -- destruct (getItemByGuid_null rt req g items t Hparam Hvalid Hload Hnull)
             as [message Hrun].
           exists (Next (TypeError message)). split; [by rewrite Hrun|].
           by eapply lookup_null.
        -- rewrite (getItemByGuid_run rt req g items t) by done. cbn [fst].
           rewrite list_find_head.
           destruct (head (filter (carries g) items)) as [item|] eqn:Hhead; cbn.
           ++ eexists. split; [reflexivity|]. by eapply lookup_found.
           ++ eexists. split; [reflexivity|]. by eapply lookup_absent.
      * destruct (getItemByGuid_not_array rt req g data t Hparam Hvalid Hload Harr)
          as [message Hrun].
        exists (Next (TypeError message)). split; [done|]. by eapply lookup_not_array.
  - eexists. split; [by rewrite malformed_guid_run|]. by apply lookup_malformed.
Qed.

(** ** One request, result and trace *)

(** A request whose route handler leaves with [out] after adding [events]
    to the trace. *)
Lemma app_matched_run rt o method url t r params out events :
  dispatch rt (routes rt o) method (pathname url) = Routed r params ->
  route_handler r (request_of o method url params) t = (inr out, t ++ events) ->
  (forall e, out = Next e -> err_statusCode e <> Some 0) ->
  app rt o method url t =
  (inr {| res_statusCode := fst (answer (new_request_id o) out);
          res_headers := request_id_header o;
          res_body := snd (answer (new_request_id o) out) |},
   t ++ events ++ error_events (new_request_id o) out
     ++ [access_line o method url (fst (answer (new_request_id o) out))]).
Proof.
  intros Hd Hout Hwf. unfold app. rewrite Hd. fold (request_of o method url params).
  unfold bind at 1. unfold bind at 1. rewrite Hout.
  destruct out as [c body|e].
  - cbn. unfold logger_info, emit, bind, ret, access_line. by rewrite <- app_assoc.
  - rewrite errorHandler_run by (by apply Hwf).
    cbn. unfold logger_info, emit, bind, ret, access_line, error_line.
    by rewrite <- !app_assoc.
Qed.

Lemma app_unmatched_run rt o method url t :
  dispatch rt (routes rt o) method (pathname url) = NotRouted ->
  app rt o method url t =
  (inr {| res_statusCode := 404;
          res_headers := request_id_header o;
          res_body := error_body ("Route not found: " +:+ method +:+ " " +:+ url) 404
                                 (new_request_id o) |},
   t ++ [access_line o method url 404]).
Proof. intros Hd. unfold app. rewrite Hd. reflexivity. Qed.

(** A request that the router hands to the error handler. *)
Lemma app_param_error_run rt o method url t err :
  dispatch rt (routes rt o) method (pathname url) = ParamError err ->
  err_statusCode err <> Some 0 ->
  app rt o method url t =
  (inr {| res_statusCode := fst (answer (new_request_id o) (Next err));
          res_headers := request_id_header o;
          res_body := snd (answer (new_request_id o) (Next err)) |},
   t ++ error_events (new_request_id o) (Next err)
     ++ [access_line o method url (fst (answer (new_request_id o) (Next err)))]).
Proof.
  intros Hd Hnz. unfold app. rewrite Hd.
  unfold bind at 1. rewrite errorHandler_run by done.
  cbn. unfold logger_info, emit, bind, ret, access_line, error_line.
  by rewrite <- !app_assoc.
Qed.

Lemma well_formed_decode_failure val : well_formed (decode_failure val).
Proof. split; [|discriminate]. cbn [decode_failure err_message]. by rewrite app_String. Qed.

(** The three routes a request can be dispatched to. *)
Lemma dispatch_cases rt o method path r params :
  dispatch rt (routes rt o) method path = Routed r params ->
  handles_method "GET" method = true /\
  ((r = all_route rt /\ params = [] /\ segments path = Some []) \/
   (exists seg, r = health_route o /\ params = [] /\ segments path = Some [seg] /\
                ascii_upper_case seg = "HEALTH") \/
   (exists seg g, r = item_route rt /\ params = [("guid", g)] /\
                  segments path = Some [seg] /\ ascii_upper_case seg <> "HEALTH" /\
                  decodeURIComponent rt seg = Some g)).
Proof.
  rewrite dispatch_routes.
  destruct (segments path) as [[|a [|b rest]]|]; try discriminate.
  - destruct (handles_method "GET" method); [|discriminate].
    intros [= <- <-]. split; [done|]. by left.
  - destruct (String.eqb "HEALTH" (ascii_upper_case a)) eqn:Ha.
    + apply String.eqb_eq in Ha.
      destruct (handles_method "GET" method) eqn:Hm; cbn [andb].
      * intros [= <- <-]. split; [done|]. right. left. by exists a.
      * destruct (String.eqb a EmptyString); [discriminate|].
        by destruct (decodeURIComponent rt a).
    + apply String.eqb_neq in Ha. cbn [andb].
      destruct (String.eqb a EmptyString); [discriminate|].
      destruct (decodeURIComponent rt a) as [g|] eqn:Hg; [|discriminate].
      destruct (handles_method "GET" method); [|discriminate].
      intros [= <- <-]. split; [done|]. right. right. exists a, g.
      split_and!; congruence.
Qed.

(** Every request is served in one of these ways, and answered as its
    handler left: the response, then the trace with the events of the
    handler, the line of the error handler if any, and the access line. *)
Lemma app_run rt o method url t :
  exists out events,
    served rt o method url t out events /\
    (forall e, out = Next e -> well_formed e) /\
    app rt o method url t =
    (inr {| res_statusCode := fst (answer (new_request_id o) out);
            res_headers := request_id_header o;
            res_body := snd (answer (new_request_id o) out) |},
     t ++ events ++ error_events (new_request_id o) out
       ++ [access_line o method url (fst (answer (new_request_id o) out))]).
Proof.
  destruct (dispatch rt (routes rt o) method (pathname url)) as [r params| |err] eqn:Hd.
  - destruct (dispatch_cases rt o method _ r params Hd)
      as [Hm [(-> & -> & Hseg) | [(seg & -> & -> & Hseg & Hh)
                                 | (seg & g & -> & -> & Hseg & Hne & Hg)]]].
    + pose proof (getAllData_trace rt (request_of o method url []) t) as Ht.
      destruct (getAllData_returns rt (request_of o method url []) t) as [out Hout].
      assert (forall e, out = Next e -> well_formed e) as Hwf.
      { intros e ->. by eapply getAllData_next. }
      exists out, (load_events rt). split; [|split; [done|]].
      * revert Hout. unfold getAllData, try_catch, bind.
        destruct (loadData rt t) as [[e|data] u] eqn:Hl; cbn; intros [= <-].
        -- destruct (loadData_throws rt t e) as [cause ->]; [by rewrite Hl|].
           apply served_all_failed; [done..|]. by rewrite Hl.
        -- apply served_all; [done..|]. by rewrite Hl.
      * apply (app_matched_run rt o method url t _ _ out (load_events rt) Hd).
        -- cbn [route_handler all_route]. rewrite <- Ht, <- Hout.
           by destruct (getAllData rt _ t).
        -- intros e He. by destruct (Hwf e He).
    + eexists _, []. split; [by eapply served_health|]. split; [discriminate|].
      apply (app_matched_run rt o method url t _ _ _ [] Hd); [|discriminate].
      cbn. by rewrite app_nil_r.
    + set (req := request_of o method url [("guid", g)]).
      destruct (getItemByGuid_cases rt req t) as (out & Hout & Hcase).
      assert (forall e, out = Next e -> well_formed e) as Hwf.
      { intros e ->. by eapply getItemByGuid_next. }
      exists out, (if isValidGuid (VString g) then load_events rt else []).
      split; [by eapply served_item|]. split; [done|].
      apply (app_matched_run rt o method url t _ _ out _ Hd).
      * cbn [route_handler item_route]. fold req.
        destruct (isValidGuid (VString g)) eqn:Hvalid.
        -- rewrite <- (getItemByGuid_trace rt req g t) by done.
           rewrite <- Hout. by destruct (getItemByGuid rt req t).
        -- rewrite malformed_guid_run in Hout |- * by done.
           cbn in Hout. injection Hout as <-. by rewrite app_nil_r.
      * intros e He. by destruct (Hwf e He).
  - eexists _, []. split; [by apply served_unmatched|]. split; [discriminate|].
    rewrite app_unmatched_run by done. reflexivity.
  - destruct (param_error_cases rt o method _ err Hd) as (seg & Hseg & Hg & ->).
    exists (Next (decode_failure seg)), []. split; [by apply served_undecoded|].
    split; [intros e [= <-]; apply well_formed_decode_failure|].
    rewrite (app_param_error_run rt o method url t _ Hd) by discriminate. reflexivity.
Qed.



Lemma info_load_events rt : Forall (fun ev => is_info ev = false) (load_events rt).
Proof.
  unfold load_events. cbv zeta. destruct (fst (loadData rt [])); repeat constructor.
Qed.

Lemma info_error_events id out : Forall (fun ev => is_info ev = false) (error_events id out).
Proof.
  destruct out as [c body|e]; [constructor|].
  repeat constructor. cbn. unfold level_of. by destruct (500 <=? status_of e).
Qed.

Lemma served_events rt o method url t out events :
  served rt o method url t out events -> events = [] \/ events = load_events rt.
Proof. intros []; auto. by destruct (isValidGuid _); auto. Qed.

Lemma message_of_nonempty err : message_of err <> EmptyString.
Proof. unfold message_of. by destruct (decide _). Qed.

(** ** The health endpoint *)

(** X1. [GET /health] is answered 200 with [status: "ok"] and the current
    timestamp whatever the platform, so also when the data file is missing
    or broken: the request reads no file and leaves its access line only. *)
Theorem health_whatever_the_platform rt o url t :
  pathname url = "/health" ->
  app rt o "GET" url t =
  (inr {| res_statusCode := 200;
          res_headers := [("X-Request-ID", new_request_id o)];
          res_body := VObject [("status", VString "ok");
                               ("timestamp", VString (Date_toISOString o))] |},
   t ++ [access_line o "GET" url 200]).
Proof.
  intros Hpath.
  assert (dispatch rt (routes rt o) "GET" (pathname url) = Routed (health_route o) [])
    as Hd.
  { rewrite dispatch_routes, Hpath. reflexivity. }
  rewrite (app_matched_run rt o "GET" url t _ _
             (Sent 200 (VObject [("status", VString "ok");
                                 ("timestamp", VString (Date_toISOString o))])) [] Hd).
  - reflexivity.
  - cbn. by rewrite app_nil_r.
  - discriminate.
Qed.

(** ** What every response looks like *)

(** X2. Every request is answered, with the [X-Request-ID] header, and the
    answer is either a 200 or one of 400, 404 and 500 with the error
    envelope as its body: a message that is not empty, the very status of
    the response, and the request id of the header. *)
Theorem responses_are_200_or_enveloped rt o method url t :
  exists res,
    fst (app rt o method url t) = inr res /\
    res_headers res = [("X-Request-ID", new_request_id o)] /\
    (res_statusCode res = 200 \/
     (res_statusCode res = 400 \/ res_statusCode res = 404 \/ res_statusCode res = 500) /\
     exists message,
       message <> EmptyString /\
       res_body res = error_body message (res_statusCode res) (new_request_id o)).
Proof.
  destruct (app_run rt o method url t) as (out & events & Hs & Hwf & ->).
  eexists. split; [reflexivity|]. split; [reflexivity|]. cbn [fst res_statusCode res_body].
  assert (forall e, known_status e ->
            (status_of e = 400 \/ status_of e = 404 \/ status_of e = 500) /\
            exists message, message <> EmptyString /\
              error_body (message_of e) (status_of e) (new_request_id o) =
              error_body message (status_of e) (new_request_id o)) as Hnext.
  { intros e Hk. split.
    - unfold status_of. destruct Hk as [-> | [-> | ->]]; cbn; auto.
    - exists (message_of e). split; [apply message_of_nonempty | reflexivity]. }
  destruct Hs as [Hd | seg | seg | data | cause | seg g out _ _ _ _ Hcase];
    cbn [answer fst snd].
  - right. split; [by right; left|]. eexists. split; [|reflexivity]. discriminate.
  - right. apply Hnext. right. by left.
  - by left.
  - by left.
  - right. apply Hnext. by left.
  - destruct Hcase; cbn [answer fst snd]; try by left.
    + right. apply Hnext. right. by left.
    + right. apply Hnext. by left.
    + right. apply Hnext. by left.
    + right. apply Hnext. by left.
    + right. apply Hnext. right. by right.
Qed.

(** ** The access log *)

(** X3. Every request writes exactly one info-level line, the last event
    of the request: the status of the response, the method, the URL and
    the request id. *)
Theorem one_access_line_per_request rt o method url t :
  exists res events,
    app rt o method url t =
      (inr res,
       t ++ events ++
         [Log LvInfo (string_of_Z (res_statusCode res) +:+ " " +:+ method +:+ " " +:+ url
                      +:+ " [" +:+ new_request_id o +:+ "]")]) /\
    Forall (fun ev => is_info ev = false) events.
Proof.
  destruct (app_run rt o method url t) as (out & events & Hs & Hwf & ->).
  exists {| res_statusCode := fst (answer (new_request_id o) out);
            res_headers := request_id_header o;
            res_body := snd (answer (new_request_id o) out) |},
         (events ++ error_events (new_request_id o) out).
  split.
  { unfold access_line. cbn [res_statusCode]. by rewrite <- (app_assoc events). }
  apply Forall_app. split; [|apply info_error_events].
  destruct (served_events _ _ _ _ _ _ _ Hs) as [-> | ->];
    [constructor | apply info_load_events].
Qed.

(** ** Serving by route *)



(** A well-formed identifier is not the word [health] in any letter case,
    is not empty, holds no [%] and so decodes to itself. *)
Lemma valid_guid_length seg :
  isValidGuid (VString seg) = true -> String.length seg = 36%nat.
Proof. intros Hv. by apply uuid_layout_length, GUID_REGEX_layout. Qed.

Lemma valid_not_health seg :
  isValidGuid (VString seg) = true -> ascii_upper_case seg <> "HEALTH".
Proof.
  intros Hv%valid_guid_length Hh.
  assert (String.length (ascii_upper_case seg) = 36%nat) as Hl.
  { rewrite <- Hv. unfold ascii_upper_case. clear.
    induction seg as [|c s IH]; [reflexivity|].
    cbn [map_string String.length]. by rewrite IH. }
  rewrite Hh in Hl. discriminate.
Qed.

Lemma valid_not_empty seg : isValidGuid (VString seg) = true -> seg <> EmptyString.
Proof. by intros Hv ->. Qed.

Lemma hex_digit_not_percent c : is_hex_digit c = true -> Ascii.eqb c "%" = false.
Proof. destruct c as [[] [] [] [] [] [] [] []]; vm_compute; intros; congruence. Qed.

Lemma all_hex_percent_free g : all_hex g = true -> percent_free g = true.
Proof.
  induction g as [|c g IH]; [reflexivity|]. cbn [all_hex percent_free].
  intros [Hc Hg]%andb_prop. by rewrite (hex_digit_not_percent c Hc), IH.
Qed.

Lemma percent_free_app a b : percent_free (a +:+ b) = percent_free a && percent_free b.
Proof.
  induction a as [|c a IH]; [reflexivity|]. rewrite app_String. cbn [percent_free].
  by rewrite IH, andb_assoc.
Qed.

Lemma valid_percent_free seg : isValidGuid (VString seg) = true -> percent_free seg = true.
Proof.
  intros (a & b & c & d & e & -> & [_ Ha] & [_ Hb] & [_ Hc] & [_ Hd] & [_ He])%GUID_REGEX_layout.
  rewrite !percent_free_app.
  rewrite (all_hex_percent_free a Ha), (all_hex_percent_free b Hb),
    (all_hex_percent_free c Hc), (all_hex_percent_free d Hd),
    (all_hex_percent_free e He).
  reflexivity.
Qed.

Lemma valid_decodes_to_itself rt seg :
  isValidGuid (VString seg) = true -> decodeURIComponent rt seg = Some seg.
Proof. intros Hv. by apply decodeURIComponent_plain, valid_percent_free. Qed.

(** ** File reads *)


(** ** Errors in the log *)

Lemma served_sent rt o method url t c body events :
  served rt o method url t (Sent c body) events ->
  c = 200 \/ dispatch rt (routes rt o) method (pathname url) = NotRouted.
Proof.
  intros Hs. inversion Hs as [Hd | | | | | seg g ? ? ? ? ? Hcase]; subst; auto.
  inversion Hcase; auto.
Qed.

(** X5. Every error a route passes on is written to the log by the error
    handler before the access line, with the request id and the message of
    the response: at error level when the status is 500 or more, at warn
    level below. *)
Theorem handled_errors_are_logged rt o method url t res :
  fst (app rt o method url t) = inr res ->
  res_statusCode res <> 200 ->
  dispatch rt (routes rt o) method (pathname url) <> NotRouted ->
  exists message,
    res_body res = error_body message (res_statusCode res) (new_request_id o) /\
    Log (if 500 <=? res_statusCode res then LvError else LvWarn)
        ("Error [" +:+ new_request_id o +:+ "]: " +:+ message)
      ∈ snd (app rt o method url t).
Proof.
  destruct (app_run rt o method url t) as (out & events & Hs & _ & ->).
  cbn [fst snd]. intros [= <-]. cbn [res_statusCode res_body]. intros Hne Hd.
  destruct out as [c body|e].
  - destruct (served_sent _ _ _ _ _ _ _ _ Hs) as [-> | Hnone]; [by destruct Hne|].
    by destruct Hd.
  - exists (message_of e). split; [reflexivity|].
    cbn [answer fst error_events]. unfold error_line, level_of.
    rewrite !elem_of_app. right. right. left. apply list_elem_of_singleton. reflexivity.
Qed.

(** ** Lookups that end in an internal error *)

Lemma lookup_param o url seg :
  param "guid" (req_params (request_of o "GET" url [("guid", seg)])) = VString seg.
Proof. reflexivity. Qed.

Lemma app_lookup rt o url seg t out :
  segments (pathname url) = Some [seg] ->
  isValidGuid (VString seg) = true ->
  fst (getItemByGuid rt (request_of o "GET" url [("guid", seg)]) t) = inr out ->
  fst (app rt o "GET" url t) =
  inr {| res_statusCode := fst (answer (new_request_id o) out);
         res_headers := request_id_header o;
         res_body := snd (answer (new_request_id o) out) |}.
Proof.
  intros Hseg Hvalid Hout.
  assert (dispatch rt (routes rt o) "GET" (pathname url) =
          Routed (item_route rt) [("guid", seg)]) as Hd.
  { rewrite (dispatch_item rt o _ seg Hseg (valid_not_empty seg Hvalid)).
    - by rewrite (valid_decodes_to_itself rt seg Hvalid).
    - intros H%health_case. by apply (valid_not_health seg Hvalid). }
  apply (app_matched rt o "GET" url t _ _ out Hd Hout).
  intros e ->. by destruct (getItemByGuid_next rt _ t e Hout).
Qed.

(** X6. When the file holds a JSON value that is not an array, every
    lookup of a well-formed identifier ends in a [TypeError] and is
    answered 500: the handler calls [find] on whatever was loaded. *)
Theorem lookup_on_non_array rt o url seg data t :
  segments (pathname url) = Some [seg] ->
  isValidGuid (VString seg) = true ->
  fst (loadData rt t) = inr data ->
  is_array data = false ->
  exists message,
    fst (getItemByGuid rt (request_of o "GET" url [("guid", seg)]) t) =
      inr (Next (TypeError message)) /\
    fst (app rt o "GET" url t) =
      inr {| res_statusCode := 500;
             res_headers := [("X-Request-ID", new_request_id o)];
             res_body := error_body message 500 (new_request_id o) |}.
Proof.
  intros Hseg Hvalid Hload Hdata.
  destruct (getItemByGuid_not_array rt (request_of o "GET" url [("guid", seg)]) seg data t
              (lookup_param o url seg) Hvalid Hload Hdata) as [message Hrun].
  exists message. split; [done|].
  rewrite (app_lookup rt o url seg t _ Hseg Hvalid Hrun).
  pose proof (getItemByGuid_next rt _ t _ Hrun) as [Hm _]. cbn in Hm.
  cbn [answer fst snd]. unfold message_of, status_of. cbn [err_message err_statusCode TypeError].
  by rewrite decide_False.
Qed.


(** ** The status of a lookup *)







(** ** The validator and letter case *)

Lemma canonicalize_to_upper c : canonicalize true (to_upper c) = canonicalize true c.
Proof. destruct c as [[] [] [] [] [] [] [] []]; reflexivity. Qed.

Lemma canonicalize_to_lower c : canonicalize true (to_lower c) = canonicalize true c.
Proof. destruct c as [[] [] [] [] [] [] [] []]; reflexivity. Qed.

Lemma existsb_pointwise {A} (p q : A -> bool) (l : list A) :
  (forall a, p a = q a) -> existsb p l = existsb q l.
Proof. intros Hpq. induction l as [|a l IH]; [reflexivity|]. cbn. by rewrite Hpq, IH. Qed.

Section CaseMapping.

Variable f : ascii -> ascii.
Hypothesis f_canonical : forall c, canonicalize true (f c) = canonicalize true c.

Lemma class_matches_map ranges c :
  class_matches true ranges (f c) = class_matches true ranges c.
Proof.
  unfold class_matches. apply existsb_pointwise. intros r.
  apply existsb_pointwise. intros a.
  by rewrite f_canonical.
Qed.

Lemma take_class_map ranges n s :
  take_class true ranges n (map_string f s) = map_string f <$> take_class true ranges n s.
Proof.
  revert s. induction n as [|n IH]; intros s; [reflexivity|].
  destruct s as [|c s]; [reflexivity|]. cbn [map_string take_class].
  rewrite class_matches_map. destruct (class_matches true ranges c); [apply IH|reflexivity].
Qed.

(** A pattern with the [i] flag cannot tell a string from its image under
    a mapping that keeps the canonical form of every character. *)
Lemma match_items_map items s :
  match_items true items (map_string f s) = match_items true items s.
Proof.
  revert s. induction items as [|[ranges n|a] items IH]; intros s.
  - by destruct s.
  - cbn [match_items]. rewrite take_class_map.
    destruct (take_class true ranges n s) as [s'|]; [apply IH|reflexivity].
  - destruct s as [|c s]; [reflexivity|]. cbn [map_string match_items].
    unfold char_matches. by rewrite f_canonical, IH.
Qed.

End CaseMapping.

Lemma isValidGuid_case_map (f : ascii -> ascii) (s : string) :
  (forall c, canonicalize true (f c) = canonicalize true c) ->
  isValidGuid (VString (map_string f s)) = isValidGuid (VString s).
Proof.
  intros Hf. unfold isValidGuid, regexp_test. cbn [typeof_string andb].
  change (re_ignoreCase GUID_REGEX) with true. by apply match_items_map.
Qed.

(** X9. The validator does not look at letter case: a string, the string
    with its letters in upper case and the string with its letters in lower
    case are accepted or rejected together. *)
Theorem isValidGuid_ignores_case (s : string) :
  isValidGuid (VString (ascii_upper_case s)) = isValidGuid (VString s) /\
  isValidGuid (VString (ascii_lower_case s)) = isValidGuid (VString s).
Proof.
  unfold ascii_upper_case, ascii_lower_case. split.
  - apply isValidGuid_case_map, canonicalize_to_upper.
  - apply isValidGuid_case_map, canonicalize_to_lower.
Qed.

(** ** Request identifiers *)

Lemma no_hyphen_uint d : no_hyphen (NilEmpty.string_of_uint d) = true.
Proof. induction d; cbn; auto. Qed.

Lemma no_hyphen_uint_zero d : no_hyphen (NilZero.string_of_uint d) = true.
Proof. destruct d; try apply (no_hyphen_uint (_ _)); reflexivity. Qed.

Lemma uint_zero_nonempty d : NilZero.string_of_uint d <> EmptyString.
Proof. destruct d; discriminate. Qed.

(** A string without hyphen followed by a hyphen: the first hyphen marks
    where it ends. *)
Lemma split_at_hyphen a1 a2 r1 r2 :
  no_hyphen a1 = true -> no_hyphen a2 = true ->
  a1 +:+ String "-" r1 = a2 +:+ String "-" r2 ->
  a1 = a2 /\ r1 = r2.
Proof.
  revert a2. induction a1 as [|c a1 IH]; intros [|c' a2]; cbn [no_hyphen];
    rewrite ?app_String.
  - intros _ _ [= ->]. done.
  - intros _ [Hc _]%andb_prop [= <- _]. discriminate.
  - intros [Hc _]%andb_prop _ [= -> _]. discriminate.
  - intros [_ H1]%andb_prop [_ H2]%andb_prop [= -> Heq].
    destruct (IH a2 H1 H2 Heq) as [-> ->]. done.
Qed.

Lemma to_int_not_nil n : Z.to_int n <> Decimal.Pos Decimal.Nil /\
                         Z.to_int n <> Decimal.Neg Decimal.Nil.
Proof.
  destruct n as [|p|p]; cbn; split; try discriminate;
    intros [= H]; by apply (DecimalPos.Unsigned.to_uint_nonnil p).
Qed.

(** Printing an integer in decimal loses nothing. *)
Lemma string_of_Z_inj a b : string_of_Z a = string_of_Z b -> a = b.
Proof.
  unfold string_of_Z. intros Heq. apply DecimalZ.to_int_inj.
  destruct (to_int_not_nil a) as [Ha1 Ha2], (to_int_not_nil b) as [Hb1 Hb2].
  pose proof (NilZero.isi _ Ha1 Ha2) as Ha. pose proof (NilZero.isi _ Hb1 Hb2) as Hb.
  rewrite Heq in Ha. congruence.
Qed.

(** X10. A request identifier determines the millisecond it was made in
    and the random part it was given: two requests get the same identifier
    only if [Date.now()] was the same and the nine characters taken from
    the random number were the same.  The identifier is never empty and its
    random part is never longer than nine characters. *)
Theorem request_id_determines_time_and_random (o1 o2 : Oracle) :
  (new_request_id o1 = new_request_id o2 <->
   Date_now o1 = Date_now o2 /\
   String.substring 2 9 (Math_random_36 o1) = String.substring 2 9 (Math_random_36 o2)) /\
  new_request_id o1 <> EmptyString /\
  (String.length (new_request_id o1) <= String.length (string_of_Z (Date_now o1)) + 10)%nat.
Proof.
  split; [|split].
  - split; [|by unfold new_request_id; intros [-> ->]].
    unfold new_request_id, string_of_Z.
    destruct (Z.to_int (Date_now o1)) as [d1|d1] eqn:H1,
             (Z.to_int (Date_now o2)) as [d2|d2] eqn:H2;
      cbn [NilZero.string_of_int]; rewrite ?app_String; intros Heq.
    + destruct (split_at_hyphen _ _ _ _ (no_hyphen_uint_zero d1)
                  (no_hyphen_uint_zero d2) Heq) as [Hd Hr].
      split; [|done]. apply string_of_Z_inj. unfold string_of_Z.
      by rewrite H1, H2; cbn [NilZero.string_of_int]; rewrite Hd.
    + pose proof (no_hyphen_uint_zero d1) as Hn. pose proof (uint_zero_nonempty d1) as Hne.
      destruct (NilZero.string_of_uint d1) as [|c s]; [done|].
      rewrite app_String in Heq. injection Heq as -> _. discriminate.
    + pose proof (no_hyphen_uint_zero d2) as Hn. pose proof (uint_zero_nonempty d2) as Hne.
      destruct (NilZero.string_of_uint d2) as [|c s]; [done|].
      rewrite app_String in Heq. injection Heq as <- _. discriminate.
    + injection Heq as Heq.
      destruct (split_at_hyphen _ _ _ _ (no_hyphen_uint_zero d1)
                  (no_hyphen_uint_zero d2) Heq) as [Hd Hr].
      split; [|done]. apply string_of_Z_inj. unfold string_of_Z.
      by rewrite H1, H2; cbn [NilZero.string_of_int]; rewrite Hd.
  - unfold new_request_id. destruct (string_of_Z (Date_now o1)); discriminate.
  - unfold new_request_id. rewrite !length_app. cbn [String.length].
    assert (forall n m s, (String.length (String.substring n m s) <= m)%nat) as Hsub.
    { intros n m s. revert n m. induction s as [|c s IH]; intros [|n] [|m]; cbn; try lia.
      - specialize (IH 0%nat m). lia.
      - apply IH.
      - apply IH. }
    specialize (Hsub 2%nat 9%nat (Math_random_36 o1)). lia.
Qed.

(** ** The validator accepts what the lookup cannot find *)

(** X11. Against a dataset whose identifiers are all written in lower
    case, an identifier with a capital letter passes validation and is
    answered 404, whatever the dataset holds: the lookup compares the
    strings as they are. *)
Theorem capital_identifier_not_found rt o url seg (records : list record) t :
  segments (pathname url) = Some [seg] ->
  isValidGuid (VString seg) = true ->
  ascii_lower_case seg <> seg ->
  fst (loadData rt t) = inr (dataset records) ->
  (forall r s, r ∈ records -> assoc "guid" r = VString s -> ascii_lower_case s = s) ->
  isValidGuid (VString (ascii_lower_case seg)) = true /\
  fst (app rt o "GET" url t) =
    inr {| res_statusCode := 404;
           res_headers := [("X-Request-ID", new_request_id o)];
           res_body := error_body ("Item not found: " +:+ seg) 404 (new_request_id o) |}.
Proof.
  intros Hseg Hvalid Hcap Hload Hlower. split.
  { unfold ascii_lower_case.
    by rewrite (isValidGuid_case_map to_lower seg canonicalize_to_lower). }
  pose proof (getItemByGuid_run rt (request_of o "GET" url [("guid", seg)]) seg
                (map VObject records) t (lookup_param o url seg) Hvalid Hload
                (reaches_null_records seg records)) as Hrun.
  assert (list_find (carries seg) (map VObject records) = None) as Hnone.
  { apply list_find_None, Forall_forall.
    intros item (r & -> & Hr)%list_elem_of_fmap Hc. apply Hcap. by eapply Hlower. }
  rewrite Hnone in Hrun.
  rewrite (app_lookup rt o url seg t _ Hseg Hvalid (f_equal fst Hrun)).
  cbn [answer fst snd lookup_outcome fmap option_fmap option_map].
  unfold message_of, status_of. cbn [err_message err_statusCode NotFoundError default
                                      from_option id].
  by rewrite decide_False.
Qed.

(** ** The further properties at work on the sample data *)

Lemma health_whatever_the_platform_witness :
  app (platform None) sample_oracle "GET" "/health?probe=1" [] =
  (inr {| res_statusCode := 200;
          res_headers := [("X-Request-ID", "1700000000000-4fzyo82mv")];
          res_body := VObject [("status", VString "ok");
                               ("timestamp", VString "2023-11-14T22:13:20.000Z")] |},
   [Log LvInfo "200 GET /health?probe=1 [1700000000000-4fzyo82mv]"]).
Proof.
  exact (health_whatever_the_platform (platform None) sample_oracle "/health?probe=1" []
           eq_refl).
Defined.


Lemma handled_errors_are_logged_witness :
  exists message,
    error_body "Invalid GUID format: invalid-guid" 400 "1700000000000-4fzyo82mv" =
      error_body message 400 (new_request_id sample_oracle) /\
    Log LvWarn ("Error [" +:+ new_request_id sample_oracle +:+ "]: " +:+ message)
      ∈ snd (app sample_platform sample_oracle "GET" "/invalid-guid" []).
Proof.
  refine (handled_errors_are_logged sample_platform sample_oracle "GET" "/invalid-guid" []
            {| res_statusCode := 400;
               res_headers := [("X-Request-ID", "1700000000000-4fzyo82mv")];
               res_body := error_body "Invalid GUID format: invalid-guid" 400
                                      "1700000000000-4fzyo82mv" |} _ _ _).
  - vm_compute. reflexivity.
  - compute_done.
  - rewrite dispatch_routes. cbn. discriminate.
Defined.

Lemma lookup_on_non_array_witness :
  exists message,
    fst (getItemByGuid (platform (Some "{}"))
           (request_of sample_oracle "GET" ("/" +:+ sample_guid) [("guid", sample_guid)])
           []) = inr (Next (TypeError message)) /\
    fst (app (platform (Some "{}")) sample_oracle "GET" ("/" +:+ sample_guid) []) =
      inr {| res_statusCode := 500;
             res_headers := [("X-Request-ID", new_request_id sample_oracle)];
             res_body := error_body message 500 (new_request_id sample_oracle) |}.
Proof.
  refine (lookup_on_non_array (platform (Some "{}")) sample_oracle ("/" +:+ sample_guid)
            sample_guid (VObject []) [] eq_refl eq_refl _ eq_refl).
  vm_compute. reflexivity.
Defined.



Lemma capital_identifier_not_found_witness :
  isValidGuid (VString (ascii_lower_case "0A1B2C3D-0000-4000-8000-00000000ABCD")) = true /\
  fst (app sample_platform sample_oracle "GET" "/0A1B2C3D-0000-4000-8000-00000000ABCD" []) =
    inr {| res_statusCode := 404;
           res_headers := [("X-Request-ID", new_request_id sample_oracle)];
           res_body := error_body "Item not found: 0A1B2C3D-0000-4000-8000-00000000ABCD"
                                  404 (new_request_id sample_oracle) |}.
Proof.
  refine (capital_identifier_not_found sample_platform sample_oracle
            "/0A1B2C3D-0000-4000-8000-00000000ABCD"
            "0A1B2C3D-0000-4000-8000-00000000ABCD" sample_records []
            eq_refl eq_refl _ _ _).
  - compute_done.
  - vm_compute. reflexivity.
  - intros r s Hr. apply elem_of_cons in Hr as [-> | Hr].
    { intros [= <-]. reflexivity. }
    apply elem_of_cons in Hr as [-> | Hr].
    { intros [= <-]. reflexivity. }
    by apply elem_of_nil in Hr.
Defined.
